(** * The message service of netlify/functions/server.js

    A shallow embedding of the Express application in
    [netlify/functions/server.js]: the SQLite table [messages] behind it,
    [initializeDb], the two routes on [/api/message], the body parser and
    the router in front of them, and the exported Netlify handler, and of
    the page [public/index.html] that calls it
    ([MessageInput], [fetchMessage], [handleUpdateMessage]), followed by
    the properties of the get/update message contract.

    Modelling conventions.
    - A JavaScript string is its sequence of UTF-16 code units
      ([jsstring]); [String.prototype.trim] strips the ECMAScript
      WhiteSpace and LineTerminator code points, which all lie in the
      basic plane, so it is defined on code units.
    - The table [messages (id INTEGER PRIMARY KEY, content TEXT NOT NULL)]
      is a finite map from row id to content; the medium is [None] while
      the table does not exist.  The driver hands a string parameter
      to SQLite as UTF-8, so an unpaired surrogate is stored, and read
      back, as U+FFFD ([toWellFormed]); every other code unit is kept.
    - The sqlite3 driver reports a failure through the [err] argument of a
      callback.  Failures of the medium (I/O, locking, a full disk) are
      not determined by the program, so every database call takes a
      [Fault]: [Some msg] makes that call fail with [err.message = msg]
      and leaves the table untouched (SQLite statements are atomic).
      Failures determined by the table itself (a missing table, a
      duplicate primary key) are computed.
    - Callbacks and [await] are sequenced in program order; each database
      call is one atomic step.  [console.log] and [console.error] are
      not modelled.  Every statement handed to the driver is recorded in
      a log, so that "no statement was issued" can be stated. *)

From Stdlib Require Import ZArith NArith String Ascii List Bool Lia DecimalString.
From stdpp Require Import gmap list.

Local Open Scope Z_scope.

#[local] Set Warnings "-register-all".

(** ** JavaScript strings *)

Module JsString.

(** A string as its UTF-16 code units. *)
Definition jsstring := list N.

(** A string literal of the source (all of them are ASCII). *)
Fixpoint lit (s : string) : jsstring :=
  match s with
  | EmptyString => []
  | String c r => N_of_ascii c :: lit r
  end.

(** ECMAScript WhiteSpace and LineTerminator, the characters
    [String.prototype.trim] removes. *)
Definition is_ws (c : N) : bool :=
  (((9 <=? c) && (c <=? 13))            (* TAB, LF, VT, FF, CR *)
  || (c =? 32) || (c =? 160)           (* SP, NBSP *)
  || (c =? 5760)                       (* OGHAM SPACE MARK *)
  || ((8192 <=? c) && (c <=? 8202))    (* EN QUAD .. HAIR SPACE *)
  || (c =? 8232) || (c =? 8233)        (* LS, PS *)
  || (c =? 8239) || (c =? 8287)        (* NNBSP, MMSP *)
  || (c =? 12288) || (c =? 65279)      (* IDEOGRAPHIC SPACE, ZWNBSP *)
  )%N.

Fixpoint trimStart (s : jsstring) : jsstring :=
  match s with
  | [] => []
  | c :: r => if is_ws c then trimStart r else s
  end.

Definition trimEnd (s : jsstring) : jsstring :=
  rev (trimStart (rev s)).

(** [s.trim()] *)
Definition trim (s : jsstring) : jsstring := trimEnd (trimStart s).

(** [s.length] *)
Definition js_length (s : jsstring) : Z := Z.of_nat (length s).

(** Leading (high) and trailing (low) surrogate code units. *)
Definition is_high (c : N) : bool := ((55296 <=? c) && (c <=? 56319))%N.
Definition is_low (c : N) : bool := ((56320 <=? c) && (c <=? 57343))%N.

(** [s.toWellFormed()]: every surrogate that is not part of a pair (a high
    one directly followed by a low one) is replaced by U+FFFD.  This is
    what remains of a string written out as UTF-8 and read back. *)
Fixpoint toWellFormed (s : jsstring) : jsstring :=
  match s with
  | [] => []
  | c :: r =>
      if is_high c then
        match r with
        | d :: r' =>
            if is_low d then c :: d :: toWellFormed r'
            else 65533%N :: toWellFormed r
        | [] => [65533%N]
        end
      else if is_low c then 65533%N :: toWellFormed r
      else c :: toWellFormed r
  end.

End JsString.
Import JsString.

(** ** JavaScript values, as [JSON.parse] builds them *)

Inductive JsValue : Type :=
| JUndefined
| JNull
| JBool (b : bool)
| JNumber (bits : N)                       (* a double, by its binary64 bits *)
| JString (s : jsstring)
| JArray (items : list JsValue)
| JObject (props : list (jsstring * JsValue)).

(** [typeof v] *)
Definition js_typeof (v : JsValue) : string :=
  match v with
  | JUndefined => "undefined"
  | JNull => "object"
  | JBool _ => "boolean"
  | JNumber _ => "number"
  | JString _ => "string"
  | JArray _ => "object"
  | JObject _ => "object"
  end.

(** The own properties of a parsed object, in insertion order. *)
Definition Props := list (jsstring * JsValue).

(** [obj.k] on an object built by [JSON.parse]: the property's value, or
    [undefined] when the object has no such property. *)
Fixpoint get_prop (k : jsstring) (o : Props) : JsValue :=
  match o with
  | [] => JUndefined
  | (k', v) :: r => if decide (k' = k) then v else get_prop k r
  end.

(** ** The SQLite medium *)

Module Sqlite.

(** [err.message] of a call made to fail by the medium; [None]: the
    medium works. *)
Definition Fault := option jsstring.

(** The statements the program runs with [db.run]. *)
Inductive RunStmt :=
| CreateTableIfNotExists
    (* CREATE TABLE IF NOT EXISTS messages (id INTEGER PRIMARY KEY, content TEXT NOT NULL) *)
| Insert (id : Z) (content : jsstring)
    (* INSERT INTO messages (id, content) VALUES (?, ?) *)
| InsertOrReplace (id : Z) (content : jsstring).
    (* INSERT OR REPLACE INTO messages (id, content) VALUES (?, ?) *)

(** The statements the program runs with [db.get]. *)
Inductive GetStmt :=
| SelectCount                       (* SELECT COUNT( * ) as count FROM messages *)
| SelectContentWhereId (id : Z).    (* SELECT content FROM messages WHERE id = 1 *)

Inductive Stmt :=
| Open                              (* new sqlite3.Database(DB_PATH, cb) *)
| Run (q : RunStmt)
| Get (q : GetStmt).

(** The database file and what was asked of it. *)
Record World := mkWorld {
  medium : option (gmap Z jsstring);   (* the rows of [messages]; None: no table *)
  issued : list Stmt                   (* statements handed to the driver, oldest first *)
}.

(** An empty /tmp: no database file, nothing asked yet. *)
Definition fresh : World := {| medium := None; issued := [] |}.

(** Computations over the database. *)
Definition DB (A : Type) : Type := World -> A * World.

Definition ret {A} (a : A) : DB A := fun w => (a, w).

Definition bind {A B} (m : DB A) (k : A -> DB B) : DB B :=
  fun w => let (a, w') := m w in k a w'.

Definition NO_SUCH_TABLE : jsstring := lit "SQLITE_ERROR: no such table: messages".
Definition UNIQUE_FAILED : jsstring :=
  lit "SQLITE_CONSTRAINT: UNIQUE constraint failed: messages.id".

(** The effect of a [db.run] statement on the table: the new medium, or
    the error SQLite raises.  A string bound to a [?] is handed to SQLite
    as UTF-8 text, so the row holds [toWellFormed] of it. *)
Definition run_effect (q : RunStmt) (m : option (gmap Z jsstring))
  : jsstring + option (gmap Z jsstring) :=
  match q, m with
  | CreateTableIfNotExists, None => inr (Some ∅)
  | CreateTableIfNotExists, Some t => inr (Some t)
  | Insert id c, Some t =>
      match t !! id with
      | Some _ => inl UNIQUE_FAILED
      | None => inr (Some (<[id := toWellFormed c]> t))
      end
  | InsertOrReplace id c, Some t => inr (Some (<[id := toWellFormed c]> t))
  | Insert _ _, None => inl NO_SUCH_TABLE
  | InsertOrReplace _ _, None => inl NO_SUCH_TABLE
  end.

(** [new sqlite3.Database(path, cb)]: [cb] receives [err] or null. *)
Definition db_open (f : Fault) : DB (option jsstring) :=
  fun w => (f, {| medium := medium w; issued := issued w ++ [Open] |}).

(** [db.run(sql, params, cb)]: [cb] receives [err] or null. *)
Definition db_run (q : RunStmt) (f : Fault) : DB (option jsstring) :=
  fun w =>
    let w1 := {| medium := medium w; issued := issued w ++ [Run q] |} in
    match f with
    | Some msg => (Some msg, w1)
    | None =>
        match run_effect q (medium w) with
        | inl msg => (Some msg, w1)
        | inr m' => (None, {| medium := m'; issued := issued w1 |})
        end
    end.

(** [db.get("SELECT COUNT( * ) as count FROM messages", cb)]: [cb] receives
    [err], or the row, of which the program reads [row.count]. *)
Definition db_get_count (f : Fault) : DB (jsstring + Z) :=
  fun w =>
    let w1 := {| medium := medium w; issued := issued w ++ [Get SelectCount] |} in
    match f with
    | Some msg => (inl msg, w1)
    | None =>
        match medium w with
        | None => (inl NO_SUCH_TABLE, w1)
        | Some t => (inr (Z.of_nat (size t)), w1)
        end
    end.

(** [db.get("SELECT content FROM messages WHERE id = 1", cb)]: [cb]
    receives [err], or the first row ([undefined] when there is none), of
    which the program reads [row.content]. *)
Definition db_get_content (id : Z) (f : Fault) : DB (jsstring + option jsstring) :=
  fun w =>
    let w1 := {| medium := medium w;
                 issued := issued w ++ [Get (SelectContentWhereId id)] |} in
    match f with
    | Some msg => (inl msg, w1)
    | None =>
        match medium w with
        | None => (inl NO_SUCH_TABLE, w1)
        | Some t => (inr (t !! id), w1)
        end
    end.

End Sqlite.
Import Sqlite.

Notation "'let*' x ':=' m 'in' k" := (bind m (fun x => k))
  (at level 10, x name, m at level 100, k at level 200).

(** ** The server: netlify/functions/server.js *)

Module Server.

(** The state of [dbInitializationPromise] once it has settled: fulfilled,
    or rejected with an [Error] of the given message. *)
Inductive Promise :=
| Resolved
| Rejected (message : jsstring).

(** What the medium does to the four database calls of [initializeDb]. *)
Record InitFaults := mkInitFaults {
  f_open : Fault;
  f_create : Fault;
  f_count : Fault;
  f_insert : Fault
}.

Definition no_faults : InitFaults :=
  {| f_open := None; f_create := None; f_count := None; f_insert := None |}.

Definition DEFAULT_MESSAGE : jsstring := lit "Hello Full Stack World!".

(** [initializeDb()]: connect, create the table if it does not exist,
    insert the default message if the table is empty. *)
Definition initializeDb (f : InitFaults) : DB Promise :=
  let* err := db_open (f_open f) in
  match err with
  | Some msg => ret (Rejected (lit "Failed to open database: " ++ msg))
  | None =>
    let* err := db_run CreateTableIfNotExists (f_create f) in
    match err with
    | Some msg => ret (Rejected (lit "Failed to create table: " ++ msg))
    | None =>
      let* row := db_get_count (f_count f) in
      match row with
      | inl msg => ret (Rejected (lit "Failed to check message count: " ++ msg))
      | inr count =>
        if count =? 0 then
          let* err := db_run (Insert 1 DEFAULT_MESSAGE) (f_insert f) in
          match err with
          | Some msg =>
              ret (Rejected (lit "Failed to insert default message: " ++ msg))
          | None => ret Resolved
          end
        else ret Resolved
      end
    end
  end.

Inductive Method := GET | POST.

(** A request as the routes of [/api/message] receive it, once
    [express.json()] and the router have let it through ([Express.express]
    below): its method and the own properties of [req.body] (none when no
    JSON body was sent; an array body has no property [newMessage]
    either). *)
Record Request := mkRequest {
  method : Method;
  body : Props
}.

(** [res.status(code).json(obj)] *)
Record Response := mkResponse {
  status : Z;
  json : Props
}.

(** The string a value of type string holds ([newMessage.trim()] is only
    evaluated behind the [typeof] test). *)
Definition as_string (v : JsValue) : jsstring :=
  match v with
  | JString s => s
  | _ => []
  end.

(** [app.get('/api/message', ...)] *)
Definition get_message (init : Promise) (req : Request) (f : Fault) : DB Response :=
  match init with                                   (* await dbInitializationPromise *)
  | Rejected message =>                             (* catch (error) *)
      ret {| status := 500;
             json := [(lit "error", JString (lit "Failed to retrieve message"));
                      (lit "details", JString message)] |}
  | Resolved =>
      let* res := db_get_content 1 f in
      match res with
      | inl message =>
          ret {| status := 500;
                 json := [(lit "error", JString (lit "Failed to retrieve message"));
                          (lit "details", JString message)] |}
      | inr (Some content) =>
          ret {| status := 200;
                 json := [(lit "message", JString content)] |}
      | inr None =>
          ret {| status := 404;
                 json := [(lit "error", JString (lit "Message not found"));
                          (lit "details", JString (lit
  "No message found with ID 1. Database might be uninitialized or corrupted."))] |}
      end
  end.

(** [app.post('/api/message', ...)] *)
Definition post_message (init : Promise) (req : Request) (f : Fault) : DB Response :=
  match init with                                   (* await dbInitializationPromise *)
  | Rejected message =>                             (* catch (error) *)
      ret {| status := 500;
             json := [(lit "error", JString (lit "Failed to update message"));
                      (lit "details", JString message)] |}
  | Resolved =>
      let newMessage := get_prop (lit "newMessage") (body req) in
      if negb (String.eqb (js_typeof newMessage) "string")
         || (js_length (trim (as_string newMessage)) =? 0)
      then
        ret {| status := 400;
               json := [(lit "error", JString (lit "Bad Request"));
                        (lit "details", JString (lit
  "newMessage is required and must be a non-empty string."))] |}
      else
        let* err := db_run (InsertOrReplace 1 (trim (as_string newMessage))) f in
        match err with
        | Some message =>
            ret {| status := 500;
                   json := [(lit "error", JString (lit "Failed to update message"));
                            (lit "details", JString message)] |}
        | None =>
            ret {| status := 200;
                   json := [(lit "status", JString (lit "success"));
                            (lit "message", JString (lit "Message updated successfully"));
                            (lit "updatedMessage",
                             JString (trim (as_string newMessage)))] |}
        end
  end.

(** The two routes of the application, for a request that reached them
    (the middleware in front of them is [Express.express]). *)
Definition app (init : Promise) (req : Request) (f : Fault) : DB Response :=
  match method req with
  | GET => get_message init req f
  | POST => post_message init req f
  end.

(** How an invocation of the exported handler ends: its promise is
    fulfilled with the application's response, or rejected. *)
Inductive Outcome :=
| Responded (r : Response)
| Thrown (message : jsstring).

(** [module.exports.handler] on an event the application routes to
    [/api/message] (any event: [Express.exported_handler]): await the
    initialization, then pass the event to the wrapped application. *)
Definition handler (init : Promise) (req : Request) (f : Fault) : DB Outcome :=
  match init with                                   (* await dbInitializationPromise *)
  | Rejected message => ret (Thrown message)
  | Resolved =>
      let* r := app init req f in
      ret (Responded r)
  end.

(** A loaded module: the settled initialization promise and the database
    it works on.  A process with a rejected promise is one that was still
    alive to serve: when the promise rejects while no invocation awaits
    it, Node ends the process on the unhandled rejection, and the next
    event is served by a module loaded anew over the same file ([load],
    [reach_reload]). *)
Record Process := mkProcess {
  dbInitializationPromise : Promise;
  world : World
}.

(** Loading the module over a database: [initializeDb()] runs once. *)
Definition load (f : InitFaults) (w : World) : Process :=
  let (p, w') := initializeDb f w in
  {| dbInitializationPromise := p; world := w' |}.

(** One invocation of the exported handler. *)
Definition invoke (p : Process) (req : Request) (f : Fault) : Outcome * Process :=
  let (o, w') := handler (dbInitializationPromise p) req f (world p) in
  (o, {| dbInitializationPromise := dbInitializationPromise p; world := w' |}).

(** The processes the program can be in: the module is loaded over an
    empty /tmp or over the file an earlier process left behind, and then
    serves requests; the medium may fail any database call. *)
Inductive reachable : Process -> Prop :=
| reach_load f :
    reachable (load f fresh)
| reach_reload f p :
    reachable p -> reachable (load f (world p))
| reach_invoke p req f :
    reachable p -> reachable (snd (invoke p req f)).

End Server.
Import Server.

(** ** The application in front of the routes *)

Module Express.

(** The body of a request as [express.json()] finds it. *)
Inductive Payload :=
| NoJsonBody
    (* no body, or a content type that is not JSON: the parser passes and
       req.body is the empty object *)
| UnsupportedBody
    (* a JSON body in a charset or content encoding the parser refuses *)
| JsonBody (bytes : Z) (parsed : option Props).
    (* a JSON text of [bytes] bytes (once inflated) and what the strict
       parser makes of it: the properties of the object it denotes, or
       None when the text is not a JSON object or array *)

(** The event handed to the exported handler, as far as the application
    looks at it.  The methods are those of the two routes; HEAD, OPTIONS
    and the other methods are left out. *)
Record Event := mkEvent {
  httpMethod : Method;
  path : jsstring;          (* the path of the URL, without the query *)
  payload : Payload
}.

(** The default [limit] of [express.json()]: '100kb'. *)
Definition JSON_LIMIT : Z := 102400.

(** [express.json()]: the status of the error it passes to [next], or
    [req.body]. *)
Definition express_json (pl : Payload) : Z + Props :=
  match pl with
  | NoJsonBody => inr []
  | UnsupportedBody => inl 415
  | JsonBody bytes parsed =>
      if JSON_LIMIT <? bytes then inl 413
      else
        match parsed with
        | None => inl 400
        | Some o => inr o
        end
  end.

Definition ascii_upper (c : N) : N :=
  if ((97 <=? c) && (c <=? 122))%N then (c - 32)%N else c.

(** Whether the router matches a path against ['/api/message']: routing
    is not case sensitive and not strict (one trailing slash is allowed). *)
Definition route_matches (pth : jsstring) : bool :=
  bool_decide (map ascii_upper pth = map ascii_upper (lit "/api/message"))
  || bool_decide (map ascii_upper pth = map ascii_upper (lit "/api/message/")).

(** How an invocation of the exported handler ends. *)
Inductive Reply :=
| Json (r : Response)
    (* the response a route built with res.status(..).json(..) *)
| Page (status : Z)
    (* an HTML page of Express itself: the error of the body parser
       (400, 413, 415) or no matching route (404) *)
| Unhandled (message : jsstring).
    (* the promise of the handler is rejected *)

(** [serverless(app)]: the body parser, then the router. *)
Definition express (init : Promise) (ev : Event) (f : Fault) : DB Reply :=
  match express_json (payload ev) with
  | inl code => ret (Page code)
  | inr b =>
      if route_matches (path ev) then
        let* r := app init {| method := httpMethod ev; body := b |} f in
        ret (Json r)
      else ret (Page 404)
  end.

(** [module.exports.handler], on any event. *)
Definition exported_handler (init : Promise) (ev : Event) (f : Fault)
  : DB Reply :=
  match init with                                   (* await dbInitializationPromise *)
  | Rejected message => ret (Unhandled message)
  | Resolved => express init ev f
  end.

(** One invocation of the exported handler on an event. *)
Definition serve (p : Process) (ev : Event) (f : Fault) : Reply * Process :=
  let (o, w') := exported_handler (dbInitializationPromise p) ev f (world p) in
  (o, {| dbInitializationPromise := dbInitializationPromise p; world := w' |}).

(** The request the routes receive for an event, when they receive one. *)
Definition admitted (ev : Event) : option Request :=
  match express_json (payload ev) with
  | inl _ => None
  | inr b =>
      if route_matches (path ev)
      then Some {| method := httpMethod ev; body := b |}
      else None
  end.

(** The status of the reply, when there is one. *)
Definition reply_status (o : Reply) : option Z :=
  match o with
  | Json r => Some (status r)
  | Page code => Some code
  | Unhandled _ => None
  end.

(** The end of an invocation that reached the routes, as a reply. *)
Definition reply_of (o : Outcome) : Reply :=
  match o with
  | Responded r => Json r
  | Thrown message => Unhandled message
  end.

End Express.
Import Express.

(** ** Notions the properties are stated with *)

(** The values of [newMessage] the validation property speaks of: a value
    that is not a string ([null], a missing field read as [undefined], a
    number, ...) or a string of whitespace only (the empty one included). *)
Inductive unacceptable : JsValue -> Prop :=
| una_not_string v : (forall s, v <> JString s) -> unacceptable v
| una_blank s : forallb is_ws s = true -> unacceptable (JString s).

(** The rows of the table, none while it does not exist. *)
Definition rows (w : World) : gmap Z jsstring :=
  match medium w with
  | Some t => t
  | None => ∅
  end.

(** The content of row 1, when the table exists. *)
Definition row1 (w : World) : option (option jsstring) :=
  match medium w with
  | Some t => Some (t !! 1)
  | None => None
  end.

Ltac db_unfold :=
  unfold invoke, handler, app, get_message, post_message, load, initializeDb,
    bind, ret, db_open, db_run, db_get_count, db_get_content, run_effect in *.

(** The answer to a GET written as a function of what the route reads:
    the initialization promise, row 1 of the table, and what the medium
    does to the SELECT. *)
Definition get_outcome (init : Promise) (r : option (option jsstring))
    (f : Fault) : Outcome :=
  match init with
  | Rejected message => Thrown message
  | Resolved =>
      Responded
        match f, r with
        | Some message, _ =>
            {| status := 500;
               json := [(lit "error", JString (lit "Failed to retrieve message"));
                        (lit "details", JString message)] |}
        | None, None =>
            {| status := 500;
               json := [(lit "error", JString (lit "Failed to retrieve message"));
                        (lit "details", JString NO_SUCH_TABLE)] |}
        | None, Some (Some content) =>
            {| status := 200; json := [(lit "message", JString content)] |}
        | None, Some None =>
            {| status := 404;
               json := [(lit "error", JString (lit "Message not found"));
                        (lit "details", JString (lit
  "No message found with ID 1. Database might be uninitialized or corrupted."))] |}
        end
  end.

(** The tables the program ever leaves behind: none, an empty one, or the
    single row 1 with a non-empty content. *)
Definition well_formed (m : option (gmap Z jsstring)) : Prop :=
  m = None \/ m = Some ∅ \/ exists v, m = Some {[1 := v]} /\ v <> [].

(** Exactly one message exists and it is not empty. *)
Definition one_message (w : World) : Prop :=
  exists v, medium w = Some {[1 := v]} /\ v <> [].

(** The status of the response an invocation ended with, if it ended
    with one. *)
Definition status_of (o : Outcome) : option Z :=
  match o with
  | Responded r => Some (status r)
  | Thrown _ => None
  end.

(** A POST to [/api/message] with a JSON body of [bytes] bytes denoting
    the object [b], and a GET to [/api/message] without a body. *)
Definition POST_api_message (bytes : Z) (b : Props) : Event :=
  {| httpMethod := POST; path := lit "/api/message";
     payload := JsonBody bytes (Some b) |}.

Definition GET_api_message : Event :=
  {| httpMethod := GET; path := lit "/api/message"; payload := NoJsonBody |}.

(** A string of [n] spaces. *)
Definition spaces (n : N) : jsstring := N.iter n (cons 32%N) [].

(** The requests of the contract's scenarios. *)
Definition POST_newMessage (s : string) : Request :=
  {| method := POST; body := [(lit "newMessage", JString (lit s))] |}.

Definition GET_message : Request := {| method := GET; body := [] |}.

(** Invocations of the exported handler served one after the other by
    the same process. *)
Fixpoint invoke_all (p : Process) (reqs : list (Request * Fault))
  : list Outcome * Process :=
  match reqs with
  | [] => ([], p)
  | (req, f) :: rest =>
      let (o, p1) := invoke p req f in
      let (os, p2) := invoke_all p1 rest in
      (o :: os, p2)
  end.

(** A string that does not start with whitespace. *)
Definition starts_clean (s : jsstring) : Prop :=
  match s with
  | [] => True
  | c :: _ => is_ws c = false
  end.

(** A database without table, with an empty table, or with the single row
    1 whose content satisfies [P]. *)
Definition table_shape (P : jsstring -> Prop) (m : option (gmap Z jsstring))
  : Prop :=
  m = None \/ m = Some ∅ \/ exists v, m = Some {[1 := v]} /\ P v.

(** ** The page: public/index.html

    The React components of the page as functions on their state.  An
    event handler is modelled by the state it leaves once it has run to
    completion with no other handler in between; what the network and the
    JavaScript engine contribute is taken as input.  The requests of the
    page go to [MESSAGE_ENDPOINT]; [deliver] and [deliver_page] hand an
    answer of the application to the page. *)

Module Client.

(** What the engine decides and the page does not: the string made of a
    value that is not a string ([String(v)], as [new Error(v)] computes
    it), and the message of the TypeError raised by reading a property of
    [null]. *)
Record Engine := mkEngine {
  to_string : JsValue -> jsstring;
  null_read : jsstring -> jsstring
}.

(** An engine to run examples with (they convert plain objects only). *)
Definition example_engine : Engine :=
  {| to_string := fun _ => lit "[object Object]";
     null_read := fun k =>
       lit "Cannot read properties of null (reading '" ++ k ++ lit "')" |}.

(** A value as a condition ([v || ...], [v ? ... : ...]). *)
Definition truthy (v : JsValue) : bool :=
  match v with
  | JUndefined => false
  | JNull => false
  | JBool b => b
  | JNumber bits =>                     (* false for +0, -0 and NaN *)
      negb ((bits mod 2 ^ 63 =? 0) || (9218868437227405312 <? bits mod 2 ^ 63))%N
  | JString s => negb (js_length s =? 0)
  | JArray _ => true
  | JObject _ => true
  end.

(** [new Error(v).message] *)
Definition error_text (E : Engine) (v : JsValue) : jsstring :=
  match v with
  | JString s => s
  | _ => to_string E v
  end.

(** [v.k] for the properties the page reads ([error], [message],
    [updatedMessage]) of a value [response.json()] produced: thrown
    message, or the value read. *)
Definition read (E : Engine) (v : JsValue) (k : jsstring) : jsstring + JsValue :=
  match v with
  | JNull => inl (null_read E k)
  | JUndefined => inl (null_read E k)
  | JObject props => inr (get_prop k props)
  | _ => inr JUndefined
  end.

(** [`${n}`] for an integer [n]. *)
Definition decimal (n : Z) : jsstring :=
  lit (NilZero.string_of_int (Z.to_int n)).

(** What [await response.json()] gives: it throws (the error's message)
    or returns the parsed body. *)
Record HttpResponse := mkHttpResponse {
  resp_status : Z;
  resp_json : jsstring + JsValue
}.

(** What [await fetch(...)] gives: it throws (the error's message) or
    returns a response. *)
Inductive FetchResult :=
| FetchFailed (message : jsstring)
| FetchDone (response : HttpResponse).

(** [response.ok] *)
Definition ok (r : HttpResponse) : bool :=
  (200 <=? resp_status r) && (resp_status r <=? 299).

(** The state of [App]. *)
Record AppState := mkAppState {
  message : JsValue;             (* useState('') *)
  loading : bool;                (* useState(true) *)
  error : option jsstring;       (* useState(null) *)
  isUpdating : bool              (* useState(false) *)
}.

(** [App] as it is mounted. *)
Definition mounted : AppState :=
  {| message := JString []; loading := true; error := None; isUpdating := false |}.

Definition setMessage (v : JsValue) (st : AppState) : AppState :=
  {| message := v; loading := loading st; error := error st;
     isUpdating := isUpdating st |}.

Definition setLoading (b : bool) (st : AppState) : AppState :=
  {| message := message st; loading := b; error := error st;
     isUpdating := isUpdating st |}.

Definition setError (e : option jsstring) (st : AppState) : AppState :=
  {| message := message st; loading := loading st; error := e;
     isUpdating := isUpdating st |}.

Definition setIsUpdating (b : bool) (st : AppState) : AppState :=
  {| message := message st; loading := loading st; error := error st;
     isUpdating := b |}.

(** [fetchMessage]: the state it leaves, given what [fetch] gave. *)
Definition fetchMessage (E : Engine) (res : FetchResult) (st : AppState)
  : AppState :=
  let st := setLoading true st in
  let st := setError None st in
  let tried : jsstring + JsValue :=                       (* try { ... } *)
    match res with
    | FetchFailed m => inl m
    | FetchDone response =>
        if negb (ok response) then
          match resp_json response with
          | inl m => inl m
          | inr errorData =>
              match read E errorData (lit "error") with
              | inl m => inl m
              | inr e =>
                  inl (if truthy e then error_text E e
                       else lit "HTTP error! Status: "
                            ++ decimal (resp_status response))
              end
          end
        else
          match resp_json response with
          | inl m => inl m
          | inr data => read E data (lit "message")
          end
    end in
  let st :=
    match tried with
    | inr v => setMessage v st
    | inl m =>                                            (* catch (err) *)
        setError (Some (lit "Failed to load message: " ++ m)) st
    end in
  setLoading false st.                                    (* finally *)

(** [handleUpdateMessage]: the state it leaves, given what [fetch] gave. *)
Definition handleUpdateMessage (E : Engine) (res : FetchResult) (st : AppState)
  : AppState :=
  let st := setIsUpdating true st in
  let st := setError None st in
  let tried : jsstring + JsValue :=                       (* try { ... } *)
    match res with
    | FetchFailed m => inl m
    | FetchDone response =>
        if negb (ok response) then
          match resp_json response with
          | inl m => inl m
          | inr errorData =>
              match read E errorData (lit "error") with
              | inl m => inl m
              | inr e =>
                  inl (if truthy e then error_text E e
                       else lit "HTTP error! Status: "
                            ++ decimal (resp_status response))
              end
          end
        else
          match resp_json response with
          | inl m => inl m
          | inr data => read E data (lit "updatedMessage")
          end
    end in
  let st :=
    match tried with
    | inr v => setMessage v st
    | inl m =>                                            (* catch (err) *)
        setError (Some (lit "Failed to update message: " ++ m)) st
    end in
  setIsUpdating false st.                                 (* finally *)

(** [MESSAGE_ENDPOINT]: the path of the URL the page fetches. *)
Definition MESSAGE_ENDPOINT : jsstring :=
  lit "/.netlify/functions/message" ++ lit "/api/message".

(** The bytes a code unit outside a surrogate pair takes in the UTF-8
    text of [JSON.stringify]: two for the short escapes, six for a
    [\uXXXX] escape (other control characters, unpaired surrogates), else
    its UTF-8 length. *)
Definition json_unit_bytes (c : N) : Z :=
  if ((c =? 8) || (c =? 9) || (c =? 10) || (c =? 12) || (c =? 13)
      || (c =? 34) || (c =? 92))%N then 2
  else if ((c <? 32)%N || is_high c || is_low c) then 6
  else if (c <? 128)%N then 1
  else if (c <? 2048)%N then 2
  else 3.

(** The bytes of the characters of a string in the text of
    [JSON.stringify] (the quotes not counted). *)
Fixpoint json_string_bytes (s : jsstring) : Z :=
  match s with
  | [] => 0
  | c :: r =>
      if is_high c then
        match r with
        | d :: r' =>
            if is_low d then 4 + json_string_bytes r'
            else 6 + json_string_bytes r
        | [] => 6
        end
      else json_unit_bytes c + json_string_bytes r
  end.

(** The event of the request [handleUpdateMessage newMessage] sends:
    a POST to [MESSAGE_ENDPOINT] whose body is
    [JSON.stringify({ newMessage })]. *)
Definition update_event (newMessage : jsstring) : Event :=
  {| httpMethod := POST;
     path := MESSAGE_ENDPOINT;
     payload := JsonBody (17 + json_string_bytes newMessage)
                  (Some [(lit "newMessage", JString newMessage)]) |}.

(** The event of the request [fetchMessage] sends: a GET to
    [MESSAGE_ENDPOINT] without a body. *)
Definition fetch_event : Event :=
  {| httpMethod := GET; path := MESSAGE_ENDPOINT; payload := NoJsonBody |}.

(** An HTML page of Express as the page receives it: [response.json()]
    throws a SyntaxError, whose message is the engine's. *)
Definition deliver_page (code : Z) (syntax_error : jsstring) : FetchResult :=
  FetchDone {| resp_status := code; resp_json := inl syntax_error |}.

(** A response built by a route as the page receives it, when it does:
    [res.status(s).json(obj)] read back by [response.json()]. *)
Definition deliver (r : Response) : FetchResult :=
  FetchDone {| resp_status := status r; resp_json := inr (JObject (json r)) |}.

(** [handleSubmit] of [MessageInput]: what is passed to
    [onUpdateMessage], if anything, and the input field afterwards. *)
Definition handleSubmit (inputValue : jsstring) : option jsstring * jsstring :=
  if truthy (JString (trim inputValue))
  then (Some (trim inputValue), [])
  else (None, inputValue).

(** [handleKeyPress] of [MessageInput], given [event.key]. *)
Definition handleKeyPress (key : jsstring) (inputValue : jsstring)
  : option jsstring * jsstring :=
  if decide (key = lit "Enter") then handleSubmit inputValue
  else (None, inputValue).

(** The [disabled] attribute of the button of [MessageInput]. *)
Definition button_disabled (isLoading : bool) (inputValue : jsstring) : bool :=
  isLoading || negb (truthy (JString (trim inputValue))).

(** The text [MessageDisplay] shows: [message || "No message loaded."] *)
Definition MessageDisplay (message : JsValue) : JsValue :=
  if truthy message then message else JString (lit "No message loaded.").

(** What [App] renders above the input. *)
Inductive Panel :=
| LoadingPanel                       (* Loading message... *)
| ErrorPanel (text : jsstring)       (* Error! text, Retry *)
| MessagePanel (shown : JsValue).    (* MessageDisplay *)

Definition App_panel (st : AppState) : Panel :=
  if loading st then LoadingPanel
  else
    match error st with
    | Some e => if truthy (JString e) then ErrorPanel e
                else MessagePanel (MessageDisplay (message st))
    | None => MessagePanel (MessageDisplay (message st))
    end.

End Client.
Import Client.

Arguments lit : simpl never.

(** * Properties *)

(** ** Strings and values *)

Lemma trimStart_blank (s : jsstring) :
  forallb is_ws s = true -> trimStart s = [].
Proof.
  induction s as [|c r IH]; simpl; [reflexivity|].
  intros H. apply andb_prop in H as [Hc Hr]. rewrite Hc. auto.
Qed.

(** A whitespace-only string trims to the empty string. *)
Lemma trim_blank (s : jsstring) :
  forallb is_ws s = true -> trim s = [].
Proof.
  intros H. unfold trim, trimEnd. rewrite (trimStart_blank s H). reflexivity.
Qed.

Lemma js_length_zero (s : jsstring) : (js_length s =? 0) = true <-> s = [].
Proof.
  unfold js_length. destruct s; simpl; split; intros H; try reflexivity;
    try discriminate; lia.
Qed.

Lemma js_length_nonzero (s : jsstring) : s <> [] -> (js_length s =? 0) = false.
Proof.
  intros H. destruct (js_length s =? 0) eqn:E; [|reflexivity].
  apply js_length_zero in E. contradiction.
Qed.

(** [typeof v === 'string'] holds of strings only. *)
Lemma typeof_string (v : JsValue) :
  String.eqb (js_typeof v) "string" = true <-> exists s, v = JString s.
Proof.
  split.
  - destruct v; simpl; intros H; try discriminate. eauto.
  - intros [s ->]. reflexivity.
Qed.

(** Induction over a string two code units at a time. *)
Lemma pair_induction (P : jsstring -> Prop) :
  P [] ->
  (forall c, P [c]) ->
  (forall c d r, P r -> P (d :: r) -> P (c :: d :: r)) ->
  forall s, P s.
Proof.
  intros H0 H1 H2 s.
  assert (H : P s /\ forall c, P (c :: s)).
  { induction s as [|d r [IHr IHc]].
    - split; [exact H0 | exact H1].
    - split; [apply IHc|]. intros c. apply H2; [exact IHr | apply IHc]. }
  apply H.
Qed.

Lemma is_ws_not_surrogate (c : N) :
  is_ws c = true -> is_high c = false /\ is_low c = false.
Proof.
  unfold is_ws, is_high, is_low. intros H.
  rewrite !orb_true_iff, !andb_true_iff, !N.eqb_eq, !N.leb_le in H.
  rewrite !andb_false_iff, !N.leb_gt. lia.
Qed.

(** [toWellFormed] keeps the length of a string and which of its
    positions hold whitespace. *)
Lemma toWellFormed_is_ws (s : jsstring) :
  map is_ws (toWellFormed s) = map is_ws s.
Proof.
  induction s as [|c|c d r IHr IHd] using pair_induction.
  - reflexivity.
  - simpl. destruct (is_high c) eqn:Eh; [|destruct (is_low c) eqn:El]; simpl;
      try reflexivity; f_equal;
      destruct (is_ws c) eqn:Ew; try reflexivity;
      apply is_ws_not_surrogate in Ew; destruct Ew; congruence.
  - assert (Hc : is_high c = true \/ is_low c = true -> is_ws c = false).
    { intros H. destruct (is_ws c) eqn:Ew; [|reflexivity].
      apply is_ws_not_surrogate in Ew. destruct Ew, H; congruence. }
    assert (Hd : is_low d = true -> is_ws d = false).
    { intros H. destruct (is_ws d) eqn:Ew; [|reflexivity].
      apply is_ws_not_surrogate in Ew. destruct Ew; congruence. }
    change (toWellFormed (c :: d :: r))
      with (if is_high c then
              if is_low d then c :: d :: toWellFormed r
              else 65533%N :: toWellFormed (d :: r)
            else if is_low c then 65533%N :: toWellFormed (d :: r)
            else c :: toWellFormed (d :: r)).
    destruct (is_high c) eqn:Eh; [destruct (is_low d) eqn:Eld | destruct (is_low c) eqn:El].
    + cbn [map]. rewrite IHr. reflexivity.
    + cbn [map]. rewrite IHd. cbn [map]. rewrite Hc by auto. reflexivity.
    + cbn [map]. rewrite IHd. cbn [map]. rewrite Hc by auto. reflexivity.
    + cbn [map]. rewrite IHd. reflexivity.
Qed.

Lemma toWellFormed_nonempty (s : jsstring) : s <> [] -> toWellFormed s <> [].
Proof.
  intros Hs H. apply (f_equal (map is_ws)) in H.
  rewrite toWellFormed_is_ws in H. destruct s; [congruence | discriminate].
Qed.

Lemma unacceptable_test (v : JsValue) :
  unacceptable v ->
  negb (String.eqb (js_typeof v) "string")
  || (js_length (trim (as_string v)) =? 0) = true.
Proof.
  intros [u Hu | s Hs].
  - destruct (String.eqb (js_typeof u) "string") eqn:E; [|reflexivity].
    apply typeof_string in E as [s ->]. destruct (Hu s). reflexivity.
  - simpl. rewrite (trim_blank s Hs). reflexivity.
Qed.

Lemma acceptable_test (s : jsstring) :
  trim s <> [] ->
  negb (String.eqb (js_typeof (JString s)) "string")
  || (js_length (trim (as_string (JString s))) =? 0) = false.
Proof.
  intros H. simpl. apply js_length_nonzero, H.
Qed.

(** ** The database *)

Lemma size_zero_test (t : gmap Z jsstring) :
  (Z.of_nat (size t) =? 0) = true <-> t = ∅.
Proof.
  rewrite Z.eqb_eq. rewrite <- (map_size_empty_iff t). lia.
Qed.

(** What [initializeDb] leaves in the database, whatever the medium does:
    the table as it was, a table just created and still empty, or a table
    that was empty and now holds the default message. *)
Lemma initializeDb_medium (f : InitFaults) (w : World) :
  let w' := snd (initializeDb f w) in
  medium w' = medium w
  \/ (medium w = None /\ medium w' = Some ∅)
  \/ (rows w = ∅ /\ medium w' = Some {[1 := DEFAULT_MESSAGE]}).
Proof.
  destruct f as [fo fc fn fi], w as [m l]. unfold rows. db_unfold. simpl.
  destruct fo; simpl; [auto|].
  destruct fc; simpl; [auto|].
  destruct m as [t|]; simpl.
  - destruct fn; simpl; [auto|].
    destruct (Z.of_nat (size t) =? 0) eqn:E; simpl; [|auto].
    apply size_zero_test in E. subst t.
    destruct fi; simpl; [auto|].
    rewrite lookup_empty. simpl. right. right. split; [reflexivity|].
    rewrite insert_empty. reflexivity.
  - destruct fn; simpl; [auto|].
    rewrite map_size_empty. simpl.
    destruct fi; simpl; [auto|].
    rewrite lookup_empty. simpl. right. right. split; [reflexivity|].
    rewrite insert_empty. reflexivity.
Qed.

(** A fulfilled initialization leaves a table that is not empty. *)
Lemma initializeDb_resolved (f : InitFaults) (w : World) :
  fst (initializeDb f w) = Resolved ->
  exists t, medium (snd (initializeDb f w)) = Some t /\ t <> ∅.
Proof.
  destruct f as [fo fc fn fi], w as [m l]. db_unfold. simpl.
  destruct fo; simpl; [discriminate|].
  destruct fc; simpl; [discriminate|].
  destruct m as [t|]; simpl.
  - destruct fn; simpl; [discriminate|].
    destruct (Z.of_nat (size t) =? 0) eqn:E; simpl.
    + apply size_zero_test in E. subst t.
      destruct fi; simpl; [discriminate|].
      rewrite lookup_empty. simpl. intros _. eexists. split; [reflexivity|].
      apply insert_non_empty.
    + intros _. exists t. split; [reflexivity|].
      intros ->. rewrite map_size_empty in E. discriminate.
  - destruct fn; simpl; [discriminate|].
    rewrite map_size_empty. simpl.
    destruct fi; simpl; [discriminate|].
    rewrite lookup_empty. simpl. intros _. eexists. split; [reflexivity|].
    apply insert_non_empty.
Qed.

(** ** The store contract *)

(** C5. Idempotent initialize: on a database whose message row already
    holds a value (the default or one written by a POST), [initializeDb]
    leaves the table exactly as it was, whatever the medium does to its
    four database calls. *)
Theorem initializeDb_keeps_value
    (f : InitFaults) (w : World) (t : gmap Z jsstring) (v : jsstring) :
  medium w = Some t ->
  t !! 1 = Some v ->
  medium (snd (initializeDb f w)) = Some t
  /\ row1 (snd (initializeDb f w)) = Some (Some v).
Proof.
  intros Hm Hv.
  assert (Hkeep : medium (snd (initializeDb f w)) = Some t).
  { destruct (initializeDb_medium f w) as [H | [[H _] | [H _]]].
    - congruence.
    - congruence.
    - unfold rows in H. rewrite Hm in H. subst t.
      rewrite lookup_empty in Hv. discriminate. }
  split; [exact Hkeep|].
  unfold row1. rewrite Hkeep, Hv. reflexivity.
Qed.

Lemma initializeDb_keeps_value_witness :
  medium (snd (initializeDb no_faults
                 {| medium := Some {[1 := lit "Hi there"]}; issued := [] |}))
    = Some {[1 := lit "Hi there"]}
  /\ row1 (snd (initializeDb no_faults
                  {| medium := Some {[1 := lit "Hi there"]}; issued := [] |}))
    = Some (Some (lit "Hi there")).
Proof.
  apply (initializeDb_keeps_value no_faults
           {| medium := Some {[1 := lit "Hi there"]}; issued := [] |}
           {[1 := lit "Hi there"]} (lit "Hi there")).
  - reflexivity.
  - reflexivity.
Defined.

(** The statements a fault-free [initializeDb] issues: the default
    message is inserted exactly when the table has no row. *)
Lemma initializeDb_issued (w : World) :
  issued (snd (initializeDb no_faults w))
  = issued w ++ [Open; Run CreateTableIfNotExists; Get SelectCount]
      ++ (if decide (rows w = ∅) then [Run (Insert 1 DEFAULT_MESSAGE)] else []).
Proof.
  destruct w as [[t|] l]; unfold rows; db_unfold; simpl.
  - destruct (Z.of_nat (size t) =? 0) eqn:E; simpl.
    + apply size_zero_test in E. subst t. rewrite lookup_empty. simpl.
      rewrite decide_True by reflexivity.
      rewrite <- !app_assoc. reflexivity.
    + rewrite decide_False.
      * rewrite <- !app_assoc. reflexivity.
      * intros ->. rewrite map_size_empty in E. discriminate.
  - rewrite map_size_empty. simpl. rewrite lookup_empty. simpl.
    rewrite decide_True by reflexivity.
    rewrite <- !app_assoc. reflexivity.
Qed.

Lemma initializeDb_fresh (w : World) :
  rows w = ∅ ->
  fst (initializeDb no_faults w) = Resolved
  /\ medium (snd (initializeDb no_faults w)) = Some {[1 := DEFAULT_MESSAGE]}.
Proof.
  destruct w as [[t|] l]; unfold rows; simpl; intros H.
  - subst t. db_unfold. simpl. rewrite map_size_empty. simpl.
    rewrite lookup_empty. simpl. rewrite insert_empty. split; reflexivity.
  - db_unfold. simpl. rewrite map_size_empty. simpl.
    rewrite lookup_empty. simpl. rewrite insert_empty. split; reflexivity.
Qed.

(** A GET served by an initialized process whose table exists and whose
    reads work. *)
Lemma invoke_get (p : Process) (t : gmap Z jsstring) (b : Props) :
  dbInitializationPromise p = Resolved ->
  medium (world p) = Some t ->
  fst (invoke p {| method := GET; body := b |} None)
  = Responded
      match t !! 1 with
      | Some content =>
          {| status := 200; json := [(lit "message", JString content)] |}
      | None =>
          {| status := 404;
             json := [(lit "error", JString (lit "Message not found"));
                      (lit "details", JString (lit
  "No message found with ID 1. Database might be uninitialized or corrupted."))] |}
      end.
Proof.
  destruct p as [i [m l]]. simpl. intros -> ->. db_unfold. simpl.
  destruct (t !! 1); reflexivity.
Qed.

(** C3. Default value: loading the module over a store that holds no
    message (no table yet, or an empty one) with a working medium fulfils
    the initialization, leaves the single row (1, "Hello Full Stack
    World!"), and a GET then answers 200 with that text as [message]; the
    INSERT of the default is issued exactly when the table has no row. *)
Theorem fresh_store_serves_default (w : World) (b : Props) :
  issued (world (load no_faults w))
  = issued w ++ [Open; Run CreateTableIfNotExists; Get SelectCount]
      ++ (if decide (rows w = ∅) then [Run (Insert 1 DEFAULT_MESSAGE)] else [])
  /\ (rows w = ∅ ->
      dbInitializationPromise (load no_faults w) = Resolved
      /\ medium (world (load no_faults w))
         = Some {[1 := lit "Hello Full Stack World!"]}
      /\ fst (invoke (load no_faults w) {| method := GET; body := b |} None)
         = Responded
             {| status := 200;
                json := [(lit "message",
                          JString (lit "Hello Full Stack World!"))] |}).
Proof.
  pose proof (initializeDb_issued w) as Hlog.
  unfold load. destruct (initializeDb no_faults w) as [i w'] eqn:E.
  simpl in *. split; [exact Hlog|].
  intros Hrows. destruct (initializeDb_fresh w Hrows) as [Hi Hm].
  rewrite E in Hi, Hm. simpl in Hi, Hm.
  split; [exact Hi|]. split; [exact Hm|].
  rewrite (invoke_get {| dbInitializationPromise := i; world := w' |}
             {[1 := DEFAULT_MESSAGE]} b Hi Hm).
  rewrite lookup_singleton_eq. reflexivity.
Qed.

Lemma fresh_store_serves_default_witness :
  rows fresh = ∅
  /\ dbInitializationPromise (load no_faults fresh) = Resolved
  /\ medium (world (load no_faults fresh))
     = Some {[1 := lit "Hello Full Stack World!"]}
  /\ fst (invoke (load no_faults fresh) {| method := GET; body := [] |} None)
     = Responded
         {| status := 200;
            json := [(lit "message",
                      JString (lit "Hello Full Stack World!"))] |}.
Proof.
  split; [reflexivity|].
  apply (proj2 (fresh_store_serves_default fresh [])). reflexivity.
Defined.

(** C7. NotFound: when the initialization is fulfilled and the read
    succeeds but the table has no row with id 1, GET answers 404 with an
    [error] field and a [details] field that names the missing row. *)
Theorem get_missing_row_404 (p : Process) (t : gmap Z jsstring) (b : Props) :
  dbInitializationPromise p = Resolved ->
  medium (world p) = Some t ->
  t !! 1 = None ->
  fst (invoke p {| method := GET; body := b |} None)
  = Responded
      {| status := 404;
         json := [(lit "error", JString (lit "Message not found"));
                  (lit "details", JString (lit
  "No message found with ID 1. Database might be uninitialized or corrupted."))] |}.
Proof.
  intros Hi Hm Hrow. rewrite (invoke_get p t b Hi Hm), Hrow. reflexivity.
Qed.

Lemma get_missing_row_404_witness :
  fst (invoke {| dbInitializationPromise := Resolved;
                 world := {| medium := Some ∅; issued := [] |} |}
         {| method := GET; body := [] |} None)
  = Responded
      {| status := 404;
         json := [(lit "error", JString (lit "Message not found"));
                  (lit "details", JString (lit
  "No message found with ID 1. Database might be uninitialized or corrupted."))] |}.
Proof.
  apply (get_missing_row_404
           {| dbInitializationPromise := Resolved;
              world := {| medium := Some ∅; issued := [] |} |} ∅ []).
  - reflexivity.
  - reflexivity.
  - reflexivity.
Defined.

(** ** The service contract *)

(** A POST of an acceptable message served by an initialized process whose
    table exists, the medium doing as told or not. *)
Lemma invoke_post (p : Process) (t : gmap Z jsstring) (b : Props)
    (s : jsstring) (f : Fault) :
  dbInitializationPromise p = Resolved ->
  medium (world p) = Some t ->
  get_prop (lit "newMessage") b = JString s ->
  trim s <> [] ->
  invoke p {| method := POST; body := b |} f
  = match f with
    | Some message =>
        (Responded
           {| status := 500;
              json := [(lit "error", JString (lit "Failed to update message"));
                       (lit "details", JString message)] |},
         {| dbInitializationPromise := Resolved;
            world := {| medium := Some t;
                        issued := issued (world p)
                                  ++ [Run (InsertOrReplace 1 (trim s))] |} |})
    | None =>
        (Responded
           {| status := 200;
              json := [(lit "status", JString (lit "success"));
                       (lit "message", JString (lit "Message updated successfully"));
                       (lit "updatedMessage", JString (trim s))] |},
         {| dbInitializationPromise := Resolved;
            world := {| medium := Some (<[1 := toWellFormed (trim s)]> t);
                        issued := issued (world p)
                                  ++ [Run (InsertOrReplace 1 (trim s))] |} |})
    end.
Proof.
  destruct p as [i [m l]]. simpl. intros -> -> Hb Hs.
  unfold invoke, handler, app, post_message, bind, ret. simpl.
  rewrite Hb, (acceptable_test s Hs). unfold db_run, run_effect. simpl.
  destruct f; reflexivity.
Qed.

(** C6. A POST whose [newMessage] is a string that is not empty after
    trimming, and whose write succeeds, answers 200 with exactly
    [{ status: "success", message: "Message updated successfully",
    updatedMessage: t }], [t] the trimmed input; the write is an upsert:
    whatever the table held before (a row 1 or none), row 1 holds [t] as
    SQLite keeps it afterwards and no other row changes. *)
Theorem post_valid_answers_success
    (p : Process) (t : gmap Z jsstring) (b : Props) (s : jsstring) :
  dbInitializationPromise p = Resolved ->
  medium (world p) = Some t ->
  get_prop (lit "newMessage") b = JString s ->
  trim s <> [] ->
  fst (invoke p {| method := POST; body := b |} None)
  = Responded
      {| status := 200;
         json := [(lit "status", JString (lit "success"));
                  (lit "message", JString (lit "Message updated successfully"));
                  (lit "updatedMessage", JString (trim s))] |}
  /\ medium (world (snd (invoke p {| method := POST; body := b |} None)))
     = Some (<[1 := toWellFormed (trim s)]> t).
Proof.
  intros Hi Hm Hb Hs. rewrite (invoke_post p t b s None Hi Hm Hb Hs).
  split; reflexivity.
Qed.

Lemma post_valid_answers_success_witness :
  fst (invoke {| dbInitializationPromise := Resolved;
                 world := {| medium := Some ∅; issued := [] |} |}
         {| method := POST;
            body := [(lit "newMessage", JString (lit "  Hi there "))] |} None)
  = Responded
      {| status := 200;
         json := [(lit "status", JString (lit "success"));
                  (lit "message", JString (lit "Message updated successfully"));
                  (lit "updatedMessage", JString (trim (lit "  Hi there ")))] |}
  /\ medium (world (snd (invoke
         {| dbInitializationPromise := Resolved;
            world := {| medium := Some ∅; issued := [] |} |}
         {| method := POST;
            body := [(lit "newMessage", JString (lit "  Hi there "))] |} None)))
     = Some (<[1 := toWellFormed (trim (lit "  Hi there "))]> ∅).
Proof.
  apply (post_valid_answers_success
           {| dbInitializationPromise := Resolved;
              world := {| medium := Some ∅; issued := [] |} |}
           ∅ [(lit "newMessage", JString (lit "  Hi there "))]
           (lit "  Hi there ")).
  - reflexivity.
  - reflexivity.
  - reflexivity.
  - vm_compute. discriminate.
Defined.

(** The POST route on an unacceptable [newMessage]. *)
Lemma route_rejects_unacceptable (p : Process) (b : Props) (f : Fault) :
  unacceptable (get_prop (lit "newMessage") b) ->
  snd (invoke p {| method := POST; body := b |} f) = p
  /\ (dbInitializationPromise p = Resolved ->
      fst (invoke p {| method := POST; body := b |} f)
      = Responded
          {| status := 400;
             json := [(lit "error", JString (lit "Bad Request"));
                      (lit "details", JString (lit
  "newMessage is required and must be a non-empty string."))] |}).
Proof.
  intros Hbad. apply unacceptable_test in Hbad.
  destruct p as [i w]. unfold invoke, handler, app, post_message, bind, ret.
  simpl. destruct i as [|message]; simpl.
  - rewrite Hbad. simpl. split; [reflexivity|]. intros _. reflexivity.
  - split; [reflexivity|]. discriminate.
Qed.

(** ** Reads *)

(** What a GET does to the process: the table and the promise stay, and
    the only statement issued is the SELECT of row 1. *)
Lemma invoke_get_process (p : Process) (b : Props) (f : Fault) :
  snd (invoke p {| method := GET; body := b |} f)
  = {| dbInitializationPromise := dbInitializationPromise p;
       world := {| medium := medium (world p);
                   issued := issued (world p)
                             ++ match dbInitializationPromise p with
                                | Resolved => [Get (SelectContentWhereId 1)]
                                | Rejected _ => []
                                end |} |}.
Proof.
  destruct p as [i [m l]]. db_unfold. simpl.
  destruct i as [|message]; simpl.
  - destruct f; simpl; [reflexivity|]. destruct m as [t|]; simpl.
    + destruct (t !! 1); reflexivity.
    + reflexivity.
  - rewrite app_nil_r. reflexivity.
Qed.

(** C9. GET never mutates the store: whatever the process, the request
    body and the behaviour of the medium, the table after a GET is the
    table before it, the initialization promise is the same, and the only
    statement handed to the database is the SELECT of row 1. *)
Theorem get_never_mutates (p : Process) (b : Props) (f : Fault) :
  medium (world (snd (invoke p {| method := GET; body := b |} f)))
  = medium (world p)
  /\ dbInitializationPromise (snd (invoke p {| method := GET; body := b |} f))
     = dbInitializationPromise p
  /\ issued (world (snd (invoke p {| method := GET; body := b |} f)))
     = issued (world p)
       ++ match dbInitializationPromise p with
          | Resolved => [Get (SelectContentWhereId 1)]
          | Rejected _ => []
          end.
Proof.
  rewrite invoke_get_process. simpl. repeat split.
Qed.

(** Only a POST changes the table. *)
Lemma only_post_mutates (p : Process) (req : Request) (f : Fault) :
  medium (world (snd (invoke p req f))) <> medium (world p) ->
  method req = POST.
Proof.
  destruct req as [[|] b]; [|reflexivity].
  rewrite invoke_get_process. simpl. congruence.
Qed.

Lemma invoke_get_outcome (p : Process) (b : Props) (f : Fault) :
  fst (invoke p {| method := GET; body := b |} f)
  = get_outcome (dbInitializationPromise p) (row1 (world p)) f.
Proof.
  destruct p as [i [m l]]. unfold row1. db_unfold. simpl.
  destruct i as [|message]; simpl; [|reflexivity].
  destruct f; simpl; [reflexivity|]. destruct m as [t|]; simpl.
  - destruct (t !! 1); reflexivity.
  - reflexivity.
Qed.



(** ** Store failures *)

(** A failed read is answered 500 with the driver's message as details. *)
Lemma read_failure_500 (p : Process) (b : Props) (message : jsstring) :
  dbInitializationPromise p = Resolved ->
  fst (invoke p {| method := GET; body := b |} (Some message))
  = Responded
      {| status := 500;
         json := [(lit "error", JString (lit "Failed to retrieve message"));
                  (lit "details", JString message)] |}.
Proof.
  intros Hi. rewrite invoke_get_outcome, Hi. reflexivity.
Qed.

(** A failed write is answered 500 with the driver's message as details,
    and the table keeps what it held. *)
Lemma write_failure_500 (p : Process) (t : gmap Z jsstring) (b : Props)
    (s message : jsstring) :
  dbInitializationPromise p = Resolved ->
  medium (world p) = Some t ->
  get_prop (lit "newMessage") b = JString s ->
  trim s <> [] ->
  fst (invoke p {| method := POST; body := b |} (Some message))
  = Responded
      {| status := 500;
         json := [(lit "error", JString (lit "Failed to update message"));
                  (lit "details", JString message)] |}
  /\ medium (world (snd (invoke p {| method := POST; body := b |} (Some message))))
     = Some t.
Proof.
  intros Hi Hm Hb Hs. rewrite (invoke_post p t b s _ Hi Hm Hb Hs).
  split; reflexivity.
Qed.

(** The routes themselves answer a rejected initialization with 500 and
    the error's message as details (their [catch] blocks). *)
Lemma routes_catch_rejection (message : jsstring) (req : Request) (f : Fault)
    (w : World) :
  app (Rejected message) req f w
  = ({| status := 500;
        json := [(lit "error",
                  JString (lit match method req with
                               | GET => "Failed to retrieve message"
                               | POST => "Failed to update message"
                               end));
                 (lit "details", JString message)] |}, w).
Proof.
  unfold app. destruct (method req); reflexivity.
Qed.

(** The exported handler awaits the promise before the application is
    entered: after a rejected initialization every invocation is itself
    rejected, and no route runs. *)
Lemma handler_rethrows (p : Process) (message : jsstring) (req : Request)
    (f : Fault) :
  dbInitializationPromise p = Rejected message ->
  invoke p req f = (Thrown message, p).
Proof.
  destruct p as [i w]. simpl. intros ->. reflexivity.
Qed.

(** No invocation during which the medium fails is answered 200. *)
Lemma failure_never_200 (p : Process) (req : Request) (message : jsstring)
    (r : Response) :
  fst (invoke p req (Some message)) = Responded r -> status r <> 200.
Proof.
  destruct p as [i [m l]], req as [[|] b]; db_unfold; simpl;
    destruct i as [|e]; simpl; try discriminate.
  - intros [= <-]. simpl. lia.
  - destruct (negb (String.eqb (js_typeof (get_prop (lit "newMessage") b))
                      "string")
              || (js_length (trim (as_string (get_prop (lit "newMessage") b)))
                  =? 0)); simpl; intros [= <-]; simpl; lia.
Qed.

(** C4. Status mapping, at the input where the code departs from it: the
    database cannot be opened when the module loads.  The initialization
    promise is rejected, and the exported handler, which awaits it before
    the application is entered, rejects every GET and POST: no 500
    response with [error] and [details] is produced, although the route
    the request was meant for would have produced one. *)
Theorem failed_initialization_is_rethrown :
  let cantopen := lit "SQLITE_CANTOPEN: unable to open database file" in
  let p := load {| f_open := Some cantopen; f_create := None;
                   f_count := None; f_insert := None |} fresh in
  let get := {| method := GET; body := [] |} in
  let post := {| method := POST;
                 body := [(lit "newMessage", JString (lit "Hi there"))] |} in
  dbInitializationPromise p
  = Rejected (lit "Failed to open database: " ++ cantopen)
  /\ fst (invoke p get None)
     = Thrown (lit "Failed to open database: " ++ cantopen)
  /\ fst (invoke p post None)
     = Thrown (lit "Failed to open database: " ++ cantopen)
  /\ fst (app (dbInitializationPromise p) get None (world p))
     = {| status := 500;
          json := [(lit "error", JString (lit "Failed to retrieve message"));
                   (lit "details",
                    JString (lit "Failed to open database: " ++ cantopen))] |}.
Proof.
  repeat split.
Qed.

(** ** The invariant *)

Lemma DEFAULT_MESSAGE_nonempty : DEFAULT_MESSAGE <> [].
Proof. vm_compute. discriminate. Qed.

Lemma load_well_formed (f : InitFaults) (w : World) :
  well_formed (medium w) ->
  well_formed (medium (world (load f w)))
  /\ (dbInitializationPromise (load f w) = Resolved ->
      one_message (world (load f w))).
Proof.
  intros Hw.
  pose proof (initializeDb_medium f w) as Hm.
  pose proof (initializeDb_resolved f w) as Hr.
  unfold load. destruct (initializeDb f w) as [i w']. simpl in *.
  assert (Hw' : well_formed (medium w')).
  { destruct Hm as [H | [[_ H] | [_ H]]]; rewrite H.
    - exact Hw.
    - right. left. reflexivity.
    - right. right. exists DEFAULT_MESSAGE.
      split; [reflexivity | exact DEFAULT_MESSAGE_nonempty]. }
  split; [exact Hw'|].
  intros Hi. destruct (Hr Hi) as (t & Ht & Hne).
  destruct Hw' as [H | [H | H]].
  - congruence.
  - rewrite Ht in H. injection H as ->. contradiction.
  - exact H.
Qed.

Lemma invoke_well_formed (p : Process) (req : Request) (f : Fault) :
  dbInitializationPromise (snd (invoke p req f)) = dbInitializationPromise p
  /\ (well_formed (medium (world p)) ->
      well_formed (medium (world (snd (invoke p req f)))))
  /\ (one_message (world p) -> one_message (world (snd (invoke p req f)))).
Proof.
  destruct req as [[|] b].
  - rewrite invoke_get_process. simpl. auto.
  - destruct p as [i [m l]].
    unfold invoke, handler, app, post_message, bind, ret. simpl.
    destruct i as [|e]; simpl; [|auto].
    destruct (negb (String.eqb (js_typeof (get_prop (lit "newMessage") b))
                      "string")
              || (js_length (trim (as_string (get_prop (lit "newMessage") b)))
                  =? 0)) eqn:E; simpl; [auto|].
    apply orb_false_elim in E as [_ E].
    assert (Hne : trim (as_string (get_prop (lit "newMessage") b)) <> []).
    { intros H. rewrite H in E. discriminate. }
    apply toWellFormed_nonempty in Hne.
    set (v := toWellFormed (trim (as_string (get_prop (lit "newMessage") b)))) in *.
    unfold db_run, run_effect. simpl. fold v.
    destruct f; simpl; [auto|].
    destruct m as [t|]; simpl; [|auto].
    split; [reflexivity|]. unfold one_message, well_formed. simpl. split.
    + intros [H | [H | (v0 & H & _)]]; [discriminate| |];
        injection H as ->; right; right; exists v.
      * rewrite insert_empty. auto.
      * rewrite insert_singleton_eq. auto.
    + intros (v0 & H & _). injection H as ->. exists v.
      rewrite insert_singleton_eq. auto.
Qed.

Lemma reachable_well_formed (p : Process) :
  reachable p ->
  well_formed (medium (world p))
  /\ (dbInitializationPromise p = Resolved -> one_message (world p)).
Proof.
  induction 1 as [f | f p _ [IHw _] | p req f _ [IHw IHo]].
  - apply load_well_formed. left. reflexivity.
  - apply load_well_formed, IHw.
  - destruct (invoke_well_formed p req f) as (Hi & Hw & Ho).
    split; [auto|]. rewrite Hi. auto.
Qed.

(** C8. Invariant: in every process the program can reach (the module
    loaded over an empty or a surviving database, then any sequence of GET
    and POST requests and reloads, the medium failing at will), once the
    initialization is fulfilled the table holds exactly one row, the row
    with id 1, and its content is a non-empty string. *)
Theorem one_message_invariant (p : Process) :
  reachable p ->
  dbInitializationPromise p = Resolved ->
  exists v, medium (world p) = Some {[1 := v]} /\ v <> [].
Proof.
  intros Hr Hi. apply (proj2 (reachable_well_formed p Hr) Hi).
Qed.

Lemma one_message_invariant_witness :
  exists v,
    medium (world (snd (invoke (load no_faults fresh)
                          {| method := POST;
                             body := [(lit "newMessage", JString (lit " B "))] |}
                          None)))
    = Some {[1 := v]} /\ v <> [].
Proof.
  apply (one_message_invariant
           (snd (invoke (load no_faults fresh)
                   {| method := POST;
                      body := [(lit "newMessage", JString (lit " B "))] |}
                   None))).
  - apply reach_invoke, reach_load.
  - reflexivity.
Defined.

(** ** The scenarios of the contract, run on the model *)

(** POST "Hi there", then GET. *)
Example scenario_post_then_get :
  let p1 := snd (invoke (load no_faults fresh) (POST_newMessage "Hi there") None) in
  fst (invoke (load no_faults fresh) (POST_newMessage "Hi there") None)
  = Responded
      {| status := 200;
         json := [(lit "status", JString (lit "success"));
                  (lit "message", JString (lit "Message updated successfully"));
                  (lit "updatedMessage", JString (lit "Hi there"))] |}
  /\ fst (invoke p1 GET_message None)
     = Responded {| status := 200;
                    json := [(lit "message", JString (lit "Hi there"))] |}.
Proof. split; reflexivity. Qed.

(** POST of an object without the field, and of a [null] field. *)
Example scenario_missing_field :
  status_of (fst (invoke (load no_faults fresh)
                    {| method := POST; body := [] |} None)) = Some 400
  /\ status_of (fst (invoke (load no_faults fresh)
                       {| method := POST;
                          body := [(lit "newMessage", JNull)] |} None))
     = Some 400.
Proof. split; reflexivity. Qed.

(** Two POSTs, "A" then "B": the GET that follows reads "B". *)
Example scenario_last_write_wins :
  let p1 := snd (invoke (load no_faults fresh) (POST_newMessage "A") None) in
  let p2 := snd (invoke p1 (POST_newMessage "B") None) in
  fst (invoke p2 GET_message None)
  = Responded {| status := 200; json := [(lit "message", JString (lit "B"))] |}.
Proof. reflexivity. Qed.

(** Surrounding whitespace of every kind is removed, inner whitespace is
    kept. *)
Example trim_example :
  trim ([32; 65279; 9] ++ lit "Hi  there" ++ [10; 8232; 160])%N = lit "Hi  there".
Proof. reflexivity. Qed.

(** * Further properties of the server *)

(** ** Trimming *)

Lemma trimStart_split (s : jsstring) :
  exists a, s = a ++ trimStart s /\ forallb is_ws a = true.
Proof.
  induction s as [|c r (a & Ha & Hws)]; simpl.
  - exists []. split; reflexivity.
  - destruct (is_ws c) eqn:E.
    + exists (c :: a). simpl. rewrite E, Hws. split; [congruence|reflexivity].
    + exists []. split; reflexivity.
Qed.

Lemma trimStart_starts_clean (s : jsstring) : starts_clean (trimStart s).
Proof.
  induction s as [|c r IH]; simpl; [exact I|].
  destruct (is_ws c) eqn:E; [exact IH | exact E].
Qed.

Lemma trimStart_clean (s : jsstring) : starts_clean s -> trimStart s = s.
Proof.
  destruct s as [|c r]; simpl; [reflexivity|]. intros ->. reflexivity.
Qed.

Lemma forallb_rev (a : jsstring) :
  forallb is_ws (rev a) = forallb is_ws a.
Proof.
  induction a as [|c r IH]; simpl; [reflexivity|].
  rewrite forallb_app, IH. simpl. rewrite andb_true_r. apply andb_comm.
Qed.

Lemma trimEnd_split (s : jsstring) :
  exists b, s = trimEnd s ++ b /\ forallb is_ws b = true.
Proof.
  destruct (trimStart_split (rev s)) as (a & Ha & Hws).
  exists (rev a). split.
  - unfold trimEnd. rewrite <- rev_app_distr, <- Ha. symmetry. apply rev_involutive.
  - rewrite forallb_rev. exact Hws.
Qed.

Lemma trimEnd_idem (s : jsstring) : trimEnd (trimEnd s) = trimEnd s.
Proof.
  unfold trimEnd. rewrite rev_involutive.
  rewrite (trimStart_clean _ (trimStart_starts_clean (rev s))). reflexivity.
Qed.

(** Trimming the end of a string that starts clean leaves a string that
    starts clean. *)
Lemma trimEnd_starts_clean (s : jsstring) :
  starts_clean s -> starts_clean (trimEnd s).
Proof.
  intros Hs. destruct (trimEnd_split s) as (b & Hb & Hws).
  destruct (trimEnd s) as [|c r] eqn:E; [exact I|].
  rewrite Hb in Hs. exact Hs.
Qed.

(** [s.trim().trim()] is [s.trim()]. *)
Lemma trim_idem (s : jsstring) : trim (trim s) = trim s.
Proof.
  unfold trim at 1.
  rewrite (trimStart_clean (trim s)).
  - unfold trim. apply trimEnd_idem.
  - unfold trim. apply trimEnd_starts_clean, trimStart_starts_clean.
Qed.

(** [s.trim()] is empty exactly when [s] is whitespace only. *)
Lemma trim_nil_iff (s : jsstring) :
  trim s = [] <-> forallb is_ws s = true.
Proof.
  split; [|apply trim_blank].
  intros H. destruct (trimStart_split s) as (a & Ha & Hwa).
  destruct (trimEnd_split (trimStart s)) as (b & Hb & Hwb).
  unfold trim in H. rewrite H in Hb. simpl in Hb.
  rewrite Ha, Hb, forallb_app, Hwa, Hwb. reflexivity.
Qed.

(** A string is its own trim exactly when neither end is whitespace. *)
Lemma trim_fixed_iff (s : jsstring) :
  trim s = s <-> starts_clean s /\ starts_clean (rev s).
Proof.
  split.
  - intros H. split.
    + rewrite <- H. unfold trim. apply trimEnd_starts_clean, trimStart_starts_clean.
    + rewrite <- H. unfold trim, trimEnd. rewrite rev_involutive.
      apply trimStart_starts_clean.
  - intros [H1 H2]. unfold trim, trimEnd.
    rewrite (trimStart_clean s H1), (trimStart_clean (rev s) H2).
    apply rev_involutive.
Qed.

Lemma starts_clean_is_ws (s u : jsstring) :
  map is_ws s = map is_ws u -> starts_clean s -> starts_clean u.
Proof.
  destruct s as [|c r], u as [|d v]; simpl; try discriminate; auto.
  intros [= H _]. congruence.
Qed.

(** A trimmed string is still trimmed as SQLite keeps it. *)
Lemma trim_toWellFormed (s : jsstring) :
  trim s = s -> trim (toWellFormed s) = toWellFormed s.
Proof.
  intros H. apply trim_fixed_iff in H as [H1 H2]. apply trim_fixed_iff. split.
  - apply (starts_clean_is_ws s); [|exact H1].
    symmetry. apply toWellFormed_is_ws.
  - apply (starts_clean_is_ws (rev s)); [|exact H2].
    rewrite !List.map_rev, toWellFormed_is_ws. reflexivity.
Qed.

(** [s.trim()] is [s] without a whitespace-only prefix and suffix. *)
Lemma trim_split (s : jsstring) :
  exists a b, s = a ++ trim s ++ b
              /\ forallb is_ws a = true /\ forallb is_ws b = true.
Proof.
  destruct (trimStart_split s) as (a & Ha & Hwa).
  destruct (trimEnd_split (trimStart s)) as (b & Hb & Hwb).
  exists a, b. unfold trim. rewrite <- Hb. auto.
Qed.

(** ** Initialization *)

(** X1. [initializeDb] is fulfilled exactly when the medium fails none of the
    calls it makes: the open, the CREATE TABLE, the count and, when the
    table has no row, the INSERT of the default.  The table's content
    never makes it fail. *)
Theorem initializeDb_resolves_iff (f : InitFaults) (w : World) :
  fst (initializeDb f w) = Resolved
  <-> f_open f = None /\ f_create f = None /\ f_count f = None
      /\ (rows w = ∅ -> f_insert f = None).
Proof.
  destruct f as [fo fc fn fi], w as [m l]. unfold rows. db_unfold. simpl.
  destruct fo; simpl; [split; [discriminate | intros (H & _); discriminate]|].
  destruct fc; simpl; [split; [discriminate | intros (_ & H & _); discriminate]|].
  destruct fn; simpl;
    [split; [destruct m; discriminate | intros (_ & _ & H & _); discriminate]|].
  destruct m as [t|]; simpl.
  - destruct (Z.of_nat (size t) =? 0) eqn:E; simpl.
    + apply size_zero_test in E. subst t. rewrite lookup_empty.
      destruct fi; simpl.
      * split; [discriminate|]. intros (_ & _ & _ & H).
        specialize (H eq_refl). discriminate.
      * split; auto.
    + split; [|reflexivity]. intros _. repeat split.
      intros ->. rewrite map_size_empty in E. discriminate.
  - rewrite map_size_empty. simpl. rewrite lookup_empty.
    destruct fi; simpl.
    + split; [discriminate|]. intros (_ & _ & _ & H).
      specialize (H eq_refl). discriminate.
    + split; auto.
Qed.

Lemma initializeDb_resolves_iff_witness :
  fst (initializeDb
         {| f_open := None; f_create := None; f_count := None;
            f_insert := Some (lit "SQLITE_FULL: database or disk is full") |}
         {| medium := Some {[1 := lit "Hi there"]}; issued := [] |})
  = Resolved.
Proof.
  apply (proj2 (initializeDb_resolves_iff
                  {| f_open := None; f_create := None; f_count := None;
                     f_insert := Some (lit "SQLITE_FULL: database or disk is full") |}
                  {| medium := Some {[1 := lit "Hi there"]}; issued := [] |})).
  repeat split. unfold rows. simpl. intros H.
  apply (f_equal (fun t : gmap Z jsstring => t !! 1)) in H.
  rewrite lookup_singleton_eq, lookup_empty in H. discriminate.
Defined.

(** X2. A rejected [initializeDb] has added no row: the rows are those it
    found (at most the table itself was created, empty). *)
Theorem initializeDb_rejected_adds_no_row
    (f : InitFaults) (w : World) (message : jsstring) :
  fst (initializeDb f w) = Rejected message ->
  rows (snd (initializeDb f w)) = rows w.
Proof.
  destruct f as [fo fc fn fi], w as [m l]. unfold rows. db_unfold. simpl.
  destruct fo; simpl; [reflexivity|].
  destruct fc; simpl; [reflexivity|].
  destruct m as [t|]; simpl.
  - destruct fn; simpl; [reflexivity|].
    destruct (Z.of_nat (size t) =? 0) eqn:E; simpl; [|reflexivity].
    destruct fi; simpl; [reflexivity|].
    apply size_zero_test in E. subst t. rewrite lookup_empty. discriminate.
  - destruct fn; simpl; [reflexivity|].
    rewrite map_size_empty. simpl.
    destruct fi; simpl; [reflexivity|].
    rewrite lookup_empty. discriminate.
Qed.

Lemma initializeDb_rejected_adds_no_row_witness :
  rows (snd (initializeDb
               {| f_open := None; f_create := None; f_count := None;
                  f_insert := Some (lit "SQLITE_FULL: database or disk is full") |}
               fresh))
  = rows fresh.
Proof.
  apply (initializeDb_rejected_adds_no_row
           {| f_open := None; f_create := None; f_count := None;
              f_insert := Some (lit "SQLITE_FULL: database or disk is full") |}
           fresh
           (lit "Failed to insert default message: "
            ++ lit "SQLITE_FULL: database or disk is full")).
  reflexivity.
Defined.

(** X3. Whenever [initializeDb] rejects, the error's message is the text of
    the first step the medium failed followed by the message the medium
    gave for it; the INSERT of the default can only be that step on a
    table without rows. *)
Theorem initializeDb_rejection_message
    (f : InitFaults) (w : World) (message : jsstring) :
  fst (initializeDb f w) = Rejected message ->
  (exists e, f_open f = Some e
             /\ message = lit "Failed to open database: " ++ e)
  \/ (exists e, f_open f = None /\ f_create f = Some e
                /\ message = lit "Failed to create table: " ++ e)
  \/ (exists e, f_open f = None /\ f_create f = None /\ f_count f = Some e
                /\ message = lit "Failed to check message count: " ++ e)
  \/ (exists e, f_open f = None /\ f_create f = None /\ f_count f = None
                /\ f_insert f = Some e /\ rows w = ∅
                /\ message = lit "Failed to insert default message: " ++ e).
Proof.
  destruct f as [fo fc fn fi], w as [m l]. unfold rows. db_unfold. simpl.
  destruct fo as [e|]; simpl; [intros [= <-]; left; eauto|].
  destruct fc as [e|]; simpl; [intros [= <-]; right; left; eauto|].
  destruct fn as [e|]; simpl.
  { destruct m; simpl; intros [= <-]; right; right; left; eauto. }
  destruct m as [t|]; simpl.
  - destruct (Z.of_nat (size t) =? 0) eqn:E; simpl; [|discriminate].
    apply size_zero_test in E. subst t. rewrite lookup_empty.
    destruct fi as [e|]; simpl; [|discriminate].
    intros [= <-]. right; right; right. exists e. repeat split.
  - rewrite map_size_empty. simpl. rewrite lookup_empty.
    destruct fi as [e|]; simpl; [|discriminate].
    intros [= <-]. right; right; right. exists e. repeat split.
Qed.

Lemma initializeDb_rejection_message_witness :
  let f := {| f_open := None; f_create := Some (lit "SQLITE_READONLY");
              f_count := None; f_insert := None |} in
  let message := lit "Failed to create table: " ++ lit "SQLITE_READONLY" in
  (exists e, f_open f = Some e
             /\ message = lit "Failed to open database: " ++ e)
  \/ (exists e, f_open f = None /\ f_create f = Some e
                /\ message = lit "Failed to create table: " ++ e)
  \/ (exists e, f_open f = None /\ f_create f = None /\ f_count f = Some e
                /\ message = lit "Failed to check message count: " ++ e)
  \/ (exists e, f_open f = None /\ f_create f = None /\ f_count f = None
                /\ f_insert f = Some e /\ rows fresh = ∅
                /\ message = lit "Failed to insert default message: " ++ e).
Proof.
  intros f message.
  apply (initializeDb_rejection_message f fresh message).
  reflexivity.
Defined.

(** ** Requests *)

(** The test of the POST route, read backwards: it holds only of a value
    that is not a string or of a whitespace-only string. *)
Lemma test_unacceptable (v : JsValue) :
  negb (String.eqb (js_typeof v) "string")
  || (js_length (trim (as_string v)) =? 0) = true ->
  unacceptable v.
Proof.
  intros H. destruct v; try (apply una_not_string; intros s; discriminate).
  simpl in H. apply js_length_zero, trim_nil_iff in H.
  apply una_blank, H.
Qed.

(** X5. No invocation touches a row other than row 1, and none drops the
    table: whatever the request and the medium, every other row reads as
    before and an existing table still exists. *)
Theorem invoke_other_rows_untouched
    (p : Process) (req : Request) (f : Fault) (id : Z) :
  id <> 1 ->
  rows (world (snd (invoke p req f))) !! id = rows (world p) !! id
  /\ (is_Some (medium (world p)) ->
      is_Some (medium (world (snd (invoke p req f))))).
Proof.
  intros Hid. destruct req as [[|] b].
  - rewrite invoke_get_process. unfold rows. simpl. auto.
  - destruct p as [i [m l]]. unfold rows.
    unfold invoke, handler, app, post_message, bind, ret. simpl.
    destruct i as [|e]; simpl; [|auto].
    destruct (negb (String.eqb (js_typeof (get_prop (lit "newMessage") b))
                      "string")
              || (js_length (trim (as_string (get_prop (lit "newMessage") b)))
                  =? 0)); simpl; [auto|].
    unfold db_run, run_effect. simpl.
    destruct f; simpl; [auto|].
    destruct m as [t|]; simpl; [|auto].
    split; [|eauto]. apply lookup_insert_ne. congruence.
Qed.

Lemma invoke_other_rows_untouched_witness :
  let p := {| dbInitializationPromise := Resolved;
              world := {| medium := Some {[2 := lit "other"]}; issued := [] |} |} in
  rows (world (snd (invoke p (POST_newMessage "Hi there") None))) !! 2
  = rows (world p) !! 2
  /\ (is_Some (medium (world p)) ->
      is_Some (medium (world (snd (invoke p (POST_newMessage "Hi there") None))))).
Proof.
  intros p.
  apply (invoke_other_rows_untouched p (POST_newMessage "Hi there") None 2).
  lia.
Defined.

Lemma error_response_shape
    (p : Process) (req : Request) (f : Fault) (r : Response) :
  fst (invoke p req f) = Responded r ->
  status r <> 200 ->
  (status r = 400 \/ status r = 404 \/ status r = 500)
  /\ exists e d, json r = [(lit "error", JString e); (lit "details", JString d)]
                 /\ e <> [].
Proof.
  destruct p as [i [m l]], req as [[|] b]; db_unfold; simpl;
    destruct i as [|e0]; simpl; try discriminate.
  - destruct f; simpl.
    + intros [= <-] _. simpl. split; [auto|]. do 2 eexists.
      split; [reflexivity|]. intros H; vm_compute in H; discriminate.
    + destruct m as [t|]; simpl.
      * destruct (t !! 1); simpl; intros [= <-] Hs; simpl in *;
          [contradiction|].
        split; [auto|]. do 2 eexists.
        split; [reflexivity|]. intros H; vm_compute in H; discriminate.
      * intros [= <-] _. simpl. split; [auto|]. do 2 eexists.
        split; [reflexivity|]. intros H; vm_compute in H; discriminate.
  - destruct (negb (String.eqb (js_typeof (get_prop (lit "newMessage") b))
                      "string")
              || (js_length (trim (as_string (get_prop (lit "newMessage") b)))
                  =? 0)); simpl.
    + intros [= <-] _. simpl. split; [auto|]. do 2 eexists.
      split; [reflexivity|]. intros H; vm_compute in H; discriminate.
    + destruct f; simpl.
      * intros [= <-] _. simpl. split; [auto|]. do 2 eexists.
        split; [reflexivity|]. intros H; vm_compute in H; discriminate.
      * destruct m as [t|]; simpl; intros [= <-] Hs; simpl in *;
          [contradiction|].
        split; [auto|]. do 2 eexists.
        split; [reflexivity|]. intros H; vm_compute in H; discriminate.
Qed.

(** X8. A POST that is not answered 200 is invisible to reads: the GET that
    follows it is answered as the same GET would have been before it. *)
Theorem unsuccessful_post_invisible
    (p : Process) (b : Props) (f : Fault) (b' : Props) (f' : Fault) :
  status_of (fst (invoke p {| method := POST; body := b |} f)) <> Some 200 ->
  fst (invoke (snd (invoke p {| method := POST; body := b |} f))
         {| method := GET; body := b' |} f')
  = fst (invoke p {| method := GET; body := b' |} f').
Proof.
  intros H. rewrite !invoke_get_outcome. revert H.
  destruct p as [i [m l]]. unfold row1.
  unfold invoke, handler, app, post_message, bind, ret. simpl.
  destruct i as [|e]; simpl; [|reflexivity].
  destruct (negb (String.eqb (js_typeof (get_prop (lit "newMessage") b))
                    "string")
            || (js_length (trim (as_string (get_prop (lit "newMessage") b)))
                =? 0)); simpl; [reflexivity|].
  unfold db_run, run_effect. simpl.
  destruct f; simpl; [reflexivity|].
  destruct m as [t|]; simpl; [|reflexivity].
  intros H. contradiction H. reflexivity.
Qed.

Lemma unsuccessful_post_invisible_witness :
  let p := load no_faults fresh in
  let f := Some (lit "SQLITE_BUSY: database is locked") in
  fst (invoke (snd (invoke p (POST_newMessage "Hi there") f)) GET_message None)
  = fst (invoke p GET_message None).
Proof.
  intros p f.
  apply (unsuccessful_post_invisible p
           [(lit "newMessage", JString (lit "Hi there"))] f [] None).
  vm_compute. discriminate.
Defined.

(** X10. After a rejected initialization the process never recovers: every
    invocation of any sequence of requests is rejected with the
    initialization's error, no statement is issued and the process is
    left as it was (the initialization is not tried again). *)
Theorem rejected_process_is_stuck
    (p : Process) (message : jsstring) (reqs : list (Request * Fault)) :
  dbInitializationPromise p = Rejected message ->
  invoke_all p reqs = (map (fun _ => Thrown message) reqs, p).
Proof.
  intros Hi. induction reqs as [|[req f] rest IH]; simpl; [reflexivity|].
  rewrite (handler_rethrows p message req f Hi), IH. reflexivity.
Qed.

Lemma rejected_process_is_stuck_witness :
  let p := load {| f_open := None; f_create := None;
                   f_count := Some (lit "SQLITE_IOERR: disk I/O error");
                   f_insert := None |} fresh in
  invoke_all p [(GET_message, None : Fault); (POST_newMessage "Hi there", None : Fault)]
  = (map (fun _ => Thrown (lit "Failed to check message count: "
                           ++ lit "SQLITE_IOERR: disk I/O error"))
       [(GET_message, None : Fault); (POST_newMessage "Hi there", None : Fault)], p).
Proof.
  intros p.
  apply (rejected_process_is_stuck p
           (lit "Failed to check message count: "
            ++ lit "SQLITE_IOERR: disk I/O error")
           [(GET_message, None : Fault); (POST_newMessage "Hi there", None : Fault)]).
  reflexivity.
Defined.

(** X11. The status of a GET over an existing table tells what happened: 200
    exactly when the read worked and row 1 exists, 404 exactly when the
    read worked and row 1 is missing, 500 exactly when the read failed. *)
Theorem get_status_classification
    (p : Process) (t : gmap Z jsstring) (b : Props) (f : Fault) :
  dbInitializationPromise p = Resolved ->
  medium (world p) = Some t ->
  let st := status_of (fst (invoke p {| method := GET; body := b |} f)) in
  (st = Some 200 <-> f = None /\ is_Some (t !! 1))
  /\ (st = Some 404 <-> f = None /\ t !! 1 = None)
  /\ (st = Some 500 <-> is_Some f).
Proof.
  intros Hi Hm st. unfold st. rewrite invoke_get_outcome, Hi.
  unfold row1. rewrite Hm. simpl.
  destruct f as [e|]; simpl.
  - repeat split; try discriminate; try (intros [H _]; discriminate); eauto.
  - destruct (t !! 1) as [c|]; simpl; repeat split;
      try discriminate; eauto;
      try (intros [_ H]; try destruct H; discriminate);
      try (intros H; destruct H; discriminate).
Qed.

Lemma get_status_classification_witness :
  let st := status_of (fst (invoke (load no_faults fresh) GET_message
                              (Some (lit "SQLITE_BUSY: database is locked")))) in
  (st = Some 200 <-> Some (lit "SQLITE_BUSY: database is locked") = None
                     /\ is_Some (({[1 := DEFAULT_MESSAGE]} : gmap Z jsstring) !! 1))
  /\ (st = Some 404 <-> Some (lit "SQLITE_BUSY: database is locked") = None
                        /\ ({[1 := DEFAULT_MESSAGE]} : gmap Z jsstring) !! 1 = None)
  /\ (st = Some 500 <-> is_Some (Some (lit "SQLITE_BUSY: database is locked"))).
Proof.
  apply (get_status_classification (load no_faults fresh)
           {[1 := DEFAULT_MESSAGE]} []
           (Some (lit "SQLITE_BUSY: database is locked"))).
  - reflexivity.
  - reflexivity.
Defined.

(** ** What the table holds *)

Lemma load_table_shape (P : jsstring -> Prop) (f : InitFaults) (w : World) :
  P DEFAULT_MESSAGE ->
  table_shape P (medium w) ->
  table_shape P (medium (world (load f w)))
  /\ (dbInitializationPromise (load f w) = Resolved ->
      exists v, medium (world (load f w)) = Some {[1 := v]} /\ P v).
Proof.
  intros Hd Hw.
  pose proof (initializeDb_medium f w) as Hm.
  pose proof (initializeDb_resolved f w) as Hr.
  unfold load. destruct (initializeDb f w) as [i w']. simpl in *.
  assert (Hw' : table_shape P (medium w')).
  { destruct Hm as [H | [[_ H] | [_ H]]]; rewrite H.
    - exact Hw.
    - right. left. reflexivity.
    - right. right. eauto. }
  split; [exact Hw'|].
  intros Hi. destruct (Hr Hi) as (t & Ht & Hne).
  destruct Hw' as [H | [H | H]].
  - congruence.
  - rewrite Ht in H. injection H as ->. contradiction.
  - exact H.
Qed.

Lemma invoke_table_shape (P : jsstring -> Prop)
    (p : Process) (req : Request) (f : Fault) :
  (forall s, trim s <> [] -> P (toWellFormed (trim s))) ->
  (table_shape P (medium (world p)) ->
   table_shape P (medium (world (snd (invoke p req f)))))
  /\ ((exists v, medium (world p) = Some {[1 := v]} /\ P v) ->
      exists v, medium (world (snd (invoke p req f))) = Some {[1 := v]} /\ P v).
Proof.
  intros HP. destruct req as [[|] b].
  - rewrite invoke_get_process. simpl. auto.
  - destruct p as [i [m l]].
    unfold invoke, handler, app, post_message, bind, ret. simpl.
    destruct i as [|e]; simpl; [|auto].
    destruct (negb (String.eqb (js_typeof (get_prop (lit "newMessage") b))
                      "string")
              || (js_length (trim (as_string (get_prop (lit "newMessage") b)))
                  =? 0)) eqn:E; simpl; [auto|].
    apply orb_false_elim in E as [_ E].
    assert (Hne : trim (as_string (get_prop (lit "newMessage") b)) <> []).
    { intros H. rewrite H in E. discriminate. }
    apply HP in Hne.
    set (v := toWellFormed (trim (as_string (get_prop (lit "newMessage") b)))) in *.
    unfold db_run, run_effect. simpl. fold v.
    destruct f; simpl; [auto|].
    destruct m as [t|]; simpl; [|auto].
    unfold table_shape. simpl. split.
    + intros [H | [H | (v0 & H & _)]]; [discriminate| |];
        injection H as ->; right; right; exists v.
      * rewrite insert_empty. auto.
      * rewrite insert_singleton_eq. auto.
    + intros (v0 & H & _). injection H as ->. exists v.
      rewrite insert_singleton_eq. auto.
Qed.

Lemma reachable_table_shape (P : jsstring -> Prop) (p : Process) :
  P DEFAULT_MESSAGE ->
  (forall s, trim s <> [] -> P (toWellFormed (trim s))) ->
  reachable p ->
  table_shape P (medium (world p))
  /\ (dbInitializationPromise p = Resolved ->
      exists v, medium (world p) = Some {[1 := v]} /\ P v).
Proof.
  intros Hd HP.
  induction 1 as [f | f p _ [IHw _] | p req f _ [IHw IHo]].
  - apply load_table_shape; [exact Hd | left; reflexivity].
  - apply load_table_shape; assumption.
  - destruct (invoke_table_shape P p req f HP) as (Hw & Ho).
    split; [auto|].
    destruct p as [i w]. unfold invoke in *. simpl in *.
    destruct (handler i req f w). simpl in *. auto.
Qed.

(** X12. The stored message never has whitespace at either end: in every
    process the program can reach, once the initialization is fulfilled,
    the content of row 1 is its own trim, and a GET served without a read
    failure answers 200 with that content. *)
Theorem stored_message_is_trimmed (p : Process) (b : Props) :
  reachable p ->
  dbInitializationPromise p = Resolved ->
  exists v, medium (world p) = Some {[1 := v]}
            /\ trim v = v
            /\ fst (invoke p {| method := GET; body := b |} None)
               = Responded {| status := 200;
                              json := [(lit "message", JString v)] |}.
Proof.
  intros Hr Hi.
  destruct (reachable_table_shape (fun v => trim v = v) p) as [_ H].
  - reflexivity.
  - intros s _. apply trim_toWellFormed, trim_idem.
  - exact Hr.
  - destruct (H Hi) as (v & Hm & Hv). exists v.
    split; [exact Hm|]. split; [exact Hv|].
    rewrite (invoke_get p _ b Hi Hm), lookup_singleton_eq. reflexivity.
Qed.

Lemma stored_message_is_trimmed_witness :
  let p := snd (invoke (load no_faults fresh) (POST_newMessage "  Hi there ") None) in
  exists v, medium (world p) = Some {[1 := v]}
            /\ trim v = v
            /\ fst (invoke p {| method := GET; body := [] |} None)
               = Responded {| status := 200;
                              json := [(lit "message", JString v)] |}.
Proof.
  intros p.
  apply (stored_message_is_trimmed p []).
  - apply reach_invoke, reach_load.
  - reflexivity.
Defined.

(** * Properties of the page *)

Lemma truthy_string (s : jsstring) : truthy (JString s) = true <-> s <> [].
Proof.
  simpl. destruct (js_length s =? 0) eqn:E; simpl.
  - apply js_length_zero in E. split; [discriminate | congruence].
  - split; [|reflexivity]. intros _ H. apply js_length_zero in H. congruence.
Qed.

(** What [handleSubmit] passes on is acceptable to the POST route. *)
Lemma trimmed_acceptable (m : jsstring) :
  m <> [] -> trim m = m -> ~ unacceptable (JString m).
Proof.
  intros Hne Hm H. inversion H as [v Hv Ev | s Hs Es].
  - apply (Hv m). reflexivity.
  - subst s. apply trim_blank in Hs. congruence.
Qed.

(** X14. [handleSubmit] sends a message exactly when the input is not
    whitespace only.  What it sends is the trimmed input: not empty,
    without whitespace at either end (trimming it again changes nothing),
    and a value the POST route accepts; the input field is cleared.  On a
    whitespace-only input nothing is sent and the field is left as it is.
    The button is enabled, outside an update, exactly when a submit would
    send. *)
Theorem handleSubmit_sends_trimmed (inputValue : jsstring) :
  match handleSubmit inputValue with
  | (Some m, after) =>
      m = trim inputValue /\ m <> [] /\ trim m = m /\ after = []
      /\ ~ unacceptable (JString m)
      /\ button_disabled false inputValue = false
  | (None, after) =>
      forallb is_ws inputValue = true /\ after = inputValue
      /\ button_disabled false inputValue = true
  end.
Proof.
  unfold handleSubmit, button_disabled.
  destruct (truthy (JString (trim inputValue))) eqn:E.
  - apply truthy_string in E.
    pose proof (trim_idem inputValue) as Hid.
    repeat split; auto. apply trimmed_acceptable; assumption.
  - assert (H : trim inputValue = []).
    { destruct (trim inputValue) as [|c r] eqn:Et; [reflexivity|].
      assert (Ht : truthy (JString (c :: r)) = true) by
        (apply truthy_string; discriminate).
      congruence. }
    apply trim_nil_iff in H. auto.
Qed.

Lemma prefixed_nonempty (prefix : string) (c : ascii) (m : jsstring) :
  lit (String c prefix) ++ m <> [].
Proof.
  intros H. apply app_eq_nil in H as [H _]. discriminate H.
Qed.



(** ** The page and the routes together *)

(** X18. Every response of the routes that is not a 200, once delivered, ends
    up as the page's error: the route's [error] text behind "Failed to
    load message: " for a load and behind "Failed to update message: "
    for an update; the message shown before is kept in both cases. *)
Theorem page_shows_route_error
    (E : Engine) (p : Process) (req : Request) (f : Fault) (r : Response)
    (st : AppState) :
  fst (invoke p req f) = Responded r ->
  status r <> 200 ->
  exists e,
    get_prop (lit "error") (json r) = JString e /\ e <> []
    /\ error (fetchMessage E (deliver r) st)
       = Some (lit "Failed to load message: " ++ e)
    /\ message (fetchMessage E (deliver r) st) = message st
    /\ error (handleUpdateMessage E (deliver r) st)
       = Some (lit "Failed to update message: " ++ e)
    /\ message (handleUpdateMessage E (deliver r) st) = message st.
Proof.
  intros Hr Hs.
  destruct (error_response_shape p req f r Hr Hs) as (Hst & e & d & Hj & He).
  exists e. destruct r as [code js]. simpl in *. subst js.
  assert (Hok : ok {| resp_status := code;
                      resp_json := inr (JObject [(lit "error", JString e);
                                                 (lit "details", JString d)]) |}
                = false).
  { unfold ok. cbn [resp_status]. destruct Hst as [-> | [-> | ->]]; reflexivity. }
  assert (Hg : get_prop (lit "error")
                 [(lit "error", JString e); (lit "details", JString d)]
               = JString e).
  { unfold get_prop. case_decide; [reflexivity|contradiction]. }
  split; [exact Hg|]. split; [exact He|].
  unfold fetchMessage, handleUpdateMessage, deliver. cbn [status json].
  rewrite !Hok, !Hg, !(proj2 (truthy_string e) He). cbn. auto.
Qed.

Lemma page_shows_route_error_witness :
  exists e,
    get_prop (lit "error")
      [(lit "error", JString (lit "Message not found"));
       (lit "details", JString (lit
  "No message found with ID 1. Database might be uninitialized or corrupted."))]
    = JString e /\ e <> []
    /\ error (fetchMessage example_engine
                (deliver {| status := 404;
                            json := [(lit "error", JString (lit "Message not found"));
                                     (lit "details", JString (lit
  "No message found with ID 1. Database might be uninitialized or corrupted."))] |})
                mounted)
       = Some (lit "Failed to load message: " ++ e)
    /\ message (fetchMessage example_engine
                  (deliver {| status := 404;
                              json := [(lit "error", JString (lit "Message not found"));
                                       (lit "details", JString (lit
  "No message found with ID 1. Database might be uninitialized or corrupted."))] |})
                  mounted)
       = message mounted
    /\ error (handleUpdateMessage example_engine
                (deliver {| status := 404;
                            json := [(lit "error", JString (lit "Message not found"));
                                     (lit "details", JString (lit
  "No message found with ID 1. Database might be uninitialized or corrupted."))] |})
                mounted)
       = Some (lit "Failed to update message: " ++ e)
    /\ message (handleUpdateMessage example_engine
                  (deliver {| status := 404;
                              json := [(lit "error", JString (lit "Message not found"));
                                       (lit "details", JString (lit
  "No message found with ID 1. Database might be uninitialized or corrupted."))] |})
                  mounted)
       = message mounted.
Proof.
  apply (page_shows_route_error example_engine
           {| dbInitializationPromise := Resolved;
              world := {| medium := Some ∅; issued := [] |} |}
           GET_message None
           {| status := 404;
              json := [(lit "error", JString (lit "Message not found"));
                       (lit "details", JString (lit
  "No message found with ID 1. Database might be uninitialized or corrupted."))] |}
           mounted).
  - reflexivity.
  - simpl. lia.
Defined.


(** * The handler on any event *)

(** ** The parser and the router in front of the routes *)

(** An event the parser and the router let through is served as the
    routes serve the request made of it. *)
Lemma serve_admitted (p : Process) (ev : Event) (f : Fault) (req : Request) :
  admitted ev = Some req ->
  serve p ev f = (reply_of (fst (invoke p req f)), snd (invoke p req f)).
Proof.
  unfold admitted, serve, exported_handler, express, invoke, handler.
  destruct (express_json (payload ev)) as [code | b]; [discriminate|].
  destruct (route_matches (path ev)); [|discriminate].
  intros [= <-]. destruct p as [[|message] w]; simpl.
  - unfold bind, ret. destruct (app Resolved _ f w). reflexivity.
  - reflexivity.
Qed.

(** Any other event never reaches the routes: Express answers it with a
    page of its own (the parser's error, or 404 for want of a route), or
    the handler has rethrown the initialization error; the process is
    left as it was. *)
Lemma serve_not_admitted (p : Process) (ev : Event) (f : Fault) :
  admitted ev = None ->
  serve p ev f
  = (match dbInitializationPromise p with
     | Rejected message => Unhandled message
     | Resolved =>
         Page match express_json (payload ev) with
              | inl code => code
              | inr _ => 404
              end
     end, p).
Proof.
  unfold admitted, serve, exported_handler, express.
  destruct p as [[|message] w]; simpl; [|reflexivity].
  destruct (express_json (payload ev)) as [code | b]; [reflexivity|].
  destruct (route_matches (path ev)); [discriminate|]. reflexivity.
Qed.

Lemma admitted_POST_api_message (bytes : Z) (b : Props) :
  bytes <= JSON_LIMIT ->
  admitted (POST_api_message bytes b) = Some {| method := POST; body := b |}.
Proof.
  intros H. unfold admitted, POST_api_message, express_json. cbn [payload path httpMethod].
  destruct (JSON_LIMIT <? bytes) eqn:E; [apply Z.ltb_lt in E; lia|].
  reflexivity.
Qed.

Lemma admitted_GET_api_message :
  admitted GET_api_message = Some {| method := GET; body := [] |}.
Proof. reflexivity. Qed.

(** Serving events keeps a process among those the program can reach. *)
Lemma reachable_serve (p : Process) (ev : Event) (f : Fault) :
  reachable p -> reachable (snd (serve p ev f)).
Proof.
  intros Hr. destruct (admitted ev) as [req|] eqn:E.
  - rewrite (serve_admitted p ev f req E). apply reach_invoke, Hr.
  - rewrite (serve_not_admitted p ev f E). exact Hr.
Qed.

Lemma get_newMessage (v : JsValue) :
  get_prop (lit "newMessage") [(lit "newMessage", v)] = v.
Proof.
  unfold get_prop. case_decide; [reflexivity|contradiction].
Qed.

(** ** The round trip *)

(** C1, where it fails.  A POST of [{ newMessage: "\ud800" }] (an unpaired
    surrogate, not empty after trimming) is answered 200, and the GET
    that follows answers 200 with U+FFFD as [message], which is not
    [s.trim()]. *)
Lemma roundtrip_fails_on_unpaired_surrogate :
  let s := [55296%N] in
  let p := load no_faults fresh in
  let post := POST_api_message 23 [(lit "newMessage", JString s)] in
  trim s <> []
  /\ (exists r, fst (serve p post None) = Json r /\ status r = 200)
  /\ fst (serve (snd (serve p post None)) GET_api_message None)
     = Json {| status := 200; json := [(lit "message", JString [65533%N])] |}
  /\ fst (serve (snd (serve p post None)) GET_api_message None)
     <> Json {| status := 200; json := [(lit "message", JString (trim s))] |}.
Proof.
  split; [vm_compute; discriminate|].
  split; [eexists; split; reflexivity|].
  split; [reflexivity|].
  vm_compute. discriminate.
Qed.

(** C1, amended.  For a string [s] whose trim is not empty and has no
    unpaired surrogate, sent as [{ newMessage: s }] in a JSON body within
    the parser's limit to a process whose initialization is fulfilled: the
    POST answers 200 and leaves [s.trim()] in row 1, and the GET that
    follows answers 200 with exactly [s.trim()] as [message]. *)
Theorem post_then_get_roundtrip
    (p : Process) (t : gmap Z jsstring) (s : jsstring) (bytes : Z) :
  dbInitializationPromise p = Resolved ->
  medium (world p) = Some t ->
  trim s <> [] ->
  toWellFormed (trim s) = trim s ->
  bytes <= JSON_LIMIT ->
  let post := POST_api_message bytes [(lit "newMessage", JString s)] in
  (exists r, fst (serve p post None) = Json r /\ status r = 200)
  /\ row1 (world (snd (serve p post None))) = Some (Some (trim s))
  /\ fst (serve (snd (serve p post None)) GET_api_message None)
     = Json {| status := 200; json := [(lit "message", JString (trim s))] |}.
Proof.
  intros Hi Hm Hs Hwf Hb post. unfold post.
  rewrite (serve_admitted p _ None _ (admitted_POST_api_message bytes _ Hb)).
  rewrite (invoke_post p t _ s None Hi Hm (get_newMessage _) Hs), Hwf.
  cbn [fst snd reply_of].
  split; [eexists; split; reflexivity|]. split.
  - unfold row1. cbn [world medium]. rewrite lookup_insert_eq. reflexivity.
  - rewrite (serve_admitted _ _ None _ admitted_GET_api_message).
    erewrite invoke_get; [|reflexivity|reflexivity].
    rewrite lookup_insert_eq. reflexivity.
Qed.

Lemma post_then_get_roundtrip_witness :
  let p := load no_faults fresh in
  let post := POST_api_message 28 [(lit "newMessage", JString (lit "  Hi there "))] in
  (exists r, fst (serve p post None) = Json r /\ status r = 200)
  /\ row1 (world (snd (serve p post None)))
     = Some (Some (trim (lit "  Hi there ")))
  /\ fst (serve (snd (serve p post None)) GET_api_message None)
     = Json {| status := 200;
               json := [(lit "message", JString (trim (lit "  Hi there ")))] |}.
Proof.
  apply (post_then_get_roundtrip (load no_faults fresh)
           {[1 := DEFAULT_MESSAGE]} (lit "  Hi there ") 28).
  - reflexivity.
  - reflexivity.
  - vm_compute. discriminate.
  - reflexivity.
  - vm_compute. discriminate.
Defined.

(** ** Validation *)

Lemma spaces_succ (n : N) : spaces (N.succ n) = 32%N :: spaces n.
Proof. unfold spaces. apply N.iter_succ. Qed.

Lemma spaces_blank (n : N) : forallb is_ws (spaces n) = true.
Proof.
  induction n as [|n IH] using N.peano_ind; [reflexivity|].
  rewrite spaces_succ. simpl. exact IH.
Qed.

Lemma json_string_bytes_spaces (n : N) :
  json_string_bytes (spaces n) = Z.of_N n.
Proof.
  induction n as [|n IH] using N.peano_ind; [reflexivity|].
  rewrite spaces_succ.
  change (json_string_bytes (32%N :: spaces n))
    with (1 + json_string_bytes (spaces n)).
  rewrite IH. lia.
Qed.

(** A JSON body over the limit is refused by the parser, whatever it
    holds and wherever it goes. *)
Lemma serve_over_limit
    (p : Process) (ev : Event) (bytes : Z) (parsed : option Props) (f : Fault) :
  payload ev = JsonBody bytes parsed ->
  JSON_LIMIT < bytes ->
  dbInitializationPromise p = Resolved ->
  serve p ev f = (Page 413, p).
Proof.
  intros Hp Hb Hi. rewrite serve_not_admitted.
  - rewrite Hi, Hp. unfold express_json.
    destruct (JSON_LIMIT <? bytes) eqn:E; [reflexivity|].
    apply Z.ltb_ge in E. lia.
  - unfold admitted. rewrite Hp. unfold express_json.
    destruct (JSON_LIMIT <? bytes) eqn:E; [reflexivity|].
    apply Z.ltb_ge in E. lia.
Qed.

(** C2, where it fails.  A POST of [{ newMessage: s }] with [s] made of
    200000 spaces (a whitespace-only string; the body has 200017 bytes)
    is not answered 400 with [{ error: "Bad Request", details }]: the
    body parser refuses it and Express answers with its 413 page. *)
Lemma blank_post_over_limit_is_413 :
  let s := spaces 200000 in
  let p := load no_faults fresh in
  let post := POST_api_message (17 + json_string_bytes s)
                [(lit "newMessage", JString s)] in
  unacceptable (get_prop (lit "newMessage") [(lit "newMessage", JString s)])
  /\ 17 + json_string_bytes s = 200017
  /\ fst (serve p post None) = Page 413
  /\ fst (serve p post None)
     <> Json {| status := 400;
                json := [(lit "error", JString (lit "Bad Request"));
                         (lit "details", JString (lit
  "newMessage is required and must be a non-empty string."))] |}.
Proof.
  intros s p post.
  assert (Hn : 17 + json_string_bytes s = 200017).
  { unfold s. rewrite json_string_bytes_spaces. reflexivity. }
  assert (H : serve p post None = (Page 413, p)).
  { apply (serve_over_limit p post (17 + json_string_bytes s)
             (Some [(lit "newMessage", JString s)]) None).
    - reflexivity.
    - rewrite Hn. reflexivity.
    - reflexivity. }
  split; [rewrite get_newMessage; apply una_blank, spaces_blank|].
  split; [exact Hn|].
  rewrite H. split; [reflexivity | discriminate].
Qed.

(** C2, amended.  A POST whose [newMessage] is missing, [null], any other
    non-string value, the empty string or a whitespace-only string never
    touches the database, whatever its path and size and whether or not
    the initialization is fulfilled (no statement is issued, the process
    is left as it was); and when the initialization is fulfilled, the
    body is within the parser's limit and the path is that of the route,
    it is answered 400 with [{ error: "Bad Request", details }]. *)
Theorem post_invalid_rejected
    (p : Process) (pth : jsstring) (bytes : Z) (b : Props) (f : Fault) :
  unacceptable (get_prop (lit "newMessage") b) ->
  let ev := {| httpMethod := POST; path := pth;
               payload := JsonBody bytes (Some b) |} in
  snd (serve p ev f) = p
  /\ (dbInitializationPromise p = Resolved ->
      bytes <= JSON_LIMIT ->
      route_matches pth = true ->
      fst (serve p ev f)
      = Json
          {| status := 400;
             json := [(lit "error", JString (lit "Bad Request"));
                      (lit "details", JString (lit
  "newMessage is required and must be a non-empty string."))] |}).
Proof.
  intros Hbad ev.
  destruct (route_rejects_unacceptable p b f Hbad) as [Hp Hr].
  destruct (admitted ev) as [req|] eqn:E.
  - assert (Hreq : req = {| method := POST; body := b |}).
    { unfold admitted, ev, express_json in E. cbn [payload path httpMethod] in E.
      destruct (JSON_LIMIT <? bytes); [discriminate|].
      destruct (route_matches pth); congruence. }
    subst req. rewrite (serve_admitted p ev f _ E). cbn [fst snd].
    split; [exact Hp|]. intros Hi _ _. rewrite (Hr Hi). reflexivity.
  - rewrite (serve_not_admitted p ev f E). split; [reflexivity|].
    intros _ Hb Hm. exfalso.
    unfold admitted, ev, express_json in E. cbn [payload path httpMethod] in E.
    destruct (JSON_LIMIT <? bytes) eqn:El; [apply Z.ltb_lt in El; lia|].
    rewrite Hm in E. discriminate.
Qed.

Lemma post_invalid_rejected_witness :
  let p := load no_faults fresh in
  let ev := {| httpMethod := POST; path := lit "/api/message";
               payload := JsonBody 20 (Some [(lit "newMessage", JString (lit "   "))]) |} in
  snd (serve p ev None) = p
  /\ fst (serve p ev None)
     = Json
         {| status := 400;
            json := [(lit "error", JString (lit "Bad Request"));
                     (lit "details", JString (lit
  "newMessage is required and must be a non-empty string."))] |}.
Proof.
  intros p ev.
  assert (Hbad : unacceptable (get_prop (lit "newMessage")
                                 [(lit "newMessage", JString (lit "   "))])).
  { rewrite get_newMessage. apply (una_blank (lit "   ")). reflexivity. }
  split.
  - apply (proj1 (post_invalid_rejected p (lit "/api/message") 20 _ None Hbad)).
  - apply (proj2 (post_invalid_rejected p (lit "/api/message") 20 _ None Hbad)).
    + reflexivity.
    + vm_compute. discriminate.
    + reflexivity.
Defined.

(** ** Writes *)

(** The POST route over an existing table, whatever the request. *)
Lemma invoke_post_cases
    (p : Process) (t : gmap Z jsstring) (b : Props) (f : Fault) :
  dbInitializationPromise p = Resolved ->
  medium (world p) = Some t ->
  (status_of (fst (invoke p {| method := POST; body := b |} f)) = Some 200
   /\ f = None
   /\ ~ unacceptable (get_prop (lit "newMessage") b)
   /\ medium (world (snd (invoke p {| method := POST; body := b |} f)))
      = Some (<[1 := toWellFormed
                       (trim (as_string (get_prop (lit "newMessage") b)))]> t))
  \/ (status_of (fst (invoke p {| method := POST; body := b |} f)) = Some 400
      /\ unacceptable (get_prop (lit "newMessage") b)
      /\ medium (world (snd (invoke p {| method := POST; body := b |} f)))
         = Some t)
  \/ (status_of (fst (invoke p {| method := POST; body := b |} f)) = Some 500
      /\ ~ unacceptable (get_prop (lit "newMessage") b)
      /\ medium (world (snd (invoke p {| method := POST; body := b |} f)))
         = Some t).
Proof.
  destruct p as [i [m l]]. simpl. intros -> ->.
  unfold invoke, handler, app, post_message, bind, ret. simpl.
  destruct (negb (String.eqb (js_typeof (get_prop (lit "newMessage") b))
                    "string")
            || (js_length (trim (as_string (get_prop (lit "newMessage") b)))
                =? 0)) eqn:E; simpl.
  - right; left. auto using test_unacceptable.
  - assert (Hok : ~ unacceptable (get_prop (lit "newMessage") b)).
    { intros H. apply unacceptable_test in H. congruence. }
    unfold db_run, run_effect. simpl.
    destruct f; simpl; [right; right; auto | left; auto].
Qed.

(** X4. A POST is all or nothing, whatever the event: either a route
    answers 200, the medium did not fail and row 1 holds the trimmed
    [newMessage] of the parsed body as SQLite keeps it, or the answer is
    the 400 or the 500 of the route or a page of Express (400, 413 or 415
    of the body parser, 404 of the router) and the table is exactly what
    it was. *)
Theorem post_all_or_nothing
    (p : Process) (t : gmap Z jsstring) (ev : Event) (f : Fault) :
  httpMethod ev = POST ->
  dbInitializationPromise p = Resolved ->
  medium (world p) = Some t ->
  (reply_status (fst (serve p ev f)) = Some 200
   /\ f = None
   /\ exists b, express_json (payload ev) = inr b
                /\ medium (world (snd (serve p ev f)))
                   = Some (<[1 := toWellFormed
                                    (trim (as_string
                                             (get_prop (lit "newMessage") b)))]> t))
  \/ (((exists r, fst (serve p ev f) = Json r
                  /\ (status r = 400 \/ status r = 500))
       \/ fst (serve p ev f) = Page 400 \/ fst (serve p ev f) = Page 404
       \/ fst (serve p ev f) = Page 413 \/ fst (serve p ev f) = Page 415)
      /\ medium (world (snd (serve p ev f))) = Some t).
Proof.
  intros Hmeth Hi Hm.
  destruct (admitted ev) as [req|] eqn:E.
  - rewrite (serve_admitted p ev f req E).
    assert (Hreq : exists b, express_json (payload ev) = inr b
                             /\ req = {| method := POST; body := b |}).
    { unfold admitted in E.
      destruct (express_json (payload ev)) as [code | b]; [discriminate|].
      destruct (route_matches (path ev)); [|discriminate].
      exists b. split; [reflexivity|]. congruence. }
    destruct Hreq as (b & Hb & ->). cbn [fst snd].
    destruct (invoke_post_cases p t b f Hi Hm)
      as [(Hs & Hf & _ & Hw) | [(Hs & _ & Hw) | (Hs & _ & Hw)]];
      destruct (fst (invoke p {| method := POST; body := b |} f)) as [r|e];
      cbn [reply_of reply_status status_of] in *; try discriminate.
    + left. eauto.
    + right. split; [|exact Hw]. left. exists r. split; [reflexivity|].
      left. congruence.
    + right. split; [|exact Hw]. left. exists r. split; [reflexivity|].
      right. congruence.
  - rewrite (serve_not_admitted p ev f E), Hi. cbn [fst snd]. right.
    split; [|exact Hm]. right.
    unfold admitted in E. destruct (payload ev) as [| |bytes parsed]; simpl in *.
    + auto.
    + auto.
    + destruct (JSON_LIMIT <? bytes); [auto|].
      destruct parsed; auto.
Qed.

Lemma post_all_or_nothing_witness :
  let p := load no_faults fresh in
  let ev := POST_api_message 20 [(lit "newMessage", JString (lit " B "))] in
  let f := Some (lit "SQLITE_BUSY: database is locked") in
  (reply_status (fst (serve p ev f)) = Some 200
   /\ f = None
   /\ exists b, express_json (payload ev) = inr b
                /\ medium (world (snd (serve p ev f)))
                   = Some (<[1 := toWellFormed
                                    (trim (as_string
                                             (get_prop (lit "newMessage") b)))]>
                             {[1 := DEFAULT_MESSAGE]}))
  \/ (((exists r, fst (serve p ev f) = Json r
                  /\ (status r = 400 \/ status r = 500))
       \/ fst (serve p ev f) = Page 400 \/ fst (serve p ev f) = Page 404
       \/ fst (serve p ev f) = Page 413 \/ fst (serve p ev f) = Page 415)
      /\ medium (world (snd (serve p ev f))) = Some {[1 := DEFAULT_MESSAGE]}).
Proof.
  intros p ev f.
  apply (post_all_or_nothing p {[1 := DEFAULT_MESSAGE]} ev f).
  - reflexivity.
  - reflexivity.
  - reflexivity.
Defined.


(** X7. Once the initialization is fulfilled, the 400 of the POST route
    is given exactly when the event got past the body parser and the
    router and the [newMessage] of its body is missing, not a string, or
    a whitespace-only string; the medium has no part in it. *)
Theorem post_400_iff_unacceptable (p : Process) (ev : Event) (f : Fault) :
  httpMethod ev = POST ->
  dbInitializationPromise p = Resolved ->
  (exists r, fst (serve p ev f) = Json r /\ status r = 400)
  <-> (exists b, express_json (payload ev) = inr b
                 /\ route_matches (path ev) = true
                 /\ unacceptable (get_prop (lit "newMessage") b)).
Proof.
  intros Hmeth Hi.
  destruct (admitted ev) as [req|] eqn:E.
  - rewrite (serve_admitted p ev f req E). cbn [fst].
    unfold admitted in E.
    destruct (express_json (payload ev)) as [code | b]; [discriminate|].
    destruct (route_matches (path ev)); [|discriminate].
    injection E as <-. rewrite Hmeth.
    destruct p as [i [m l]]. simpl in Hi. subst i.
    unfold invoke, handler, app, post_message, bind, ret. simpl.
    destruct (negb (String.eqb (js_typeof (get_prop (lit "newMessage") b))
                      "string")
              || (js_length (trim (as_string (get_prop (lit "newMessage") b)))
                  =? 0)) eqn:Et; simpl.
    + split.
      * intros _. exists b. auto using test_unacceptable.
      * intros _. eexists. split; reflexivity.
    + split.
      * intros (r & Hr & Hs). exfalso. revert Hr Hs.
        unfold db_run, run_effect. simpl.
        destruct f; simpl; [intros [= <-]; discriminate|].
        destruct m; simpl; intros [= <-]; discriminate.
      * intros (b' & [= <-] & _ & H). apply unacceptable_test in H. congruence.
  - rewrite (serve_not_admitted p ev f E), Hi. cbn [fst]. split.
    + intros (r & H & _). discriminate.
    + intros (b & Hb & Hm & _). unfold admitted in E.
      rewrite Hb, Hm in E. discriminate.
Qed.

Lemma post_400_iff_unacceptable_witness :
  exists r,
    fst (serve (load no_faults fresh)
           (POST_api_message 16 [(lit "newMessage", JNumber 0)]) None) = Json r
    /\ status r = 400.
Proof.
  apply (proj2 (post_400_iff_unacceptable (load no_faults fresh)
                  (POST_api_message 16 [(lit "newMessage", JNumber 0)]) None
                  eq_refl eq_refl)).
  exists [(lit "newMessage", JNumber 0)].
  split; [reflexivity|]. split; [reflexivity|].
  apply una_not_string. intros s. discriminate.
Defined.

(** X9. Last write wins: after two successful POSTs the table is what the
    second one alone would have left, and a GET reads the second value as
    SQLite keeps it (the trimmed string, an unpaired surrogate replaced
    by U+FFFD). *)
Theorem last_write_wins
    (p : Process) (t : gmap Z jsstring) (s1 s2 : jsstring) (n1 n2 : Z) :
  dbInitializationPromise p = Resolved ->
  medium (world p) = Some t ->
  trim s1 <> [] ->
  trim s2 <> [] ->
  n1 <= JSON_LIMIT ->
  n2 <= JSON_LIMIT ->
  let post1 := POST_api_message n1 [(lit "newMessage", JString s1)] in
  let post2 := POST_api_message n2 [(lit "newMessage", JString s2)] in
  medium (world (snd (serve (snd (serve p post1 None)) post2 None)))
  = medium (world (snd (serve p post2 None)))
  /\ fst (serve (snd (serve (snd (serve p post1 None)) post2 None))
            GET_api_message None)
     = Json {| status := 200;
               json := [(lit "message", JString (toWellFormed (trim s2)))] |}.
Proof.
  intros Hi Hm H1 H2 Hn1 Hn2 post1 post2. unfold post1, post2.
  rewrite (serve_admitted p _ None _ (admitted_POST_api_message n1 _ Hn1)).
  rewrite (serve_admitted p _ None _ (admitted_POST_api_message n2 _ Hn2)).
  rewrite (invoke_post p t _ s1 None Hi Hm (get_newMessage _) H1).
  rewrite (invoke_post p t _ s2 None Hi Hm (get_newMessage _) H2).
  cbn [snd].
  rewrite (serve_admitted _ _ None _ (admitted_POST_api_message n2 _ Hn2)).
  erewrite (invoke_post _ (<[1 := toWellFormed (trim s1)]> t) _ s2 None);
    [|reflexivity|reflexivity|apply get_newMessage|exact H2].
  cbn [snd world medium]. rewrite insert_insert_eq. split; [reflexivity|].
  rewrite (serve_admitted _ _ None _ admitted_GET_api_message).
  erewrite invoke_get; [|reflexivity|reflexivity].
  rewrite lookup_insert_eq. reflexivity.
Qed.

Lemma last_write_wins_witness :
  let p := load no_faults fresh in
  let post1 := POST_api_message 18 [(lit "newMessage", JString (lit "A"))] in
  let post2 := POST_api_message 19 [(lit "newMessage", JString (lit " B"))] in
  medium (world (snd (serve (snd (serve p post1 None)) post2 None)))
  = medium (world (snd (serve p post2 None)))
  /\ fst (serve (snd (serve (snd (serve p post1 None)) post2 None))
            GET_api_message None)
     = Json {| status := 200;
               json := [(lit "message",
                         JString (toWellFormed (trim (lit " B"))))] |}.
Proof.
  apply (last_write_wins (load no_faults fresh) {[1 := DEFAULT_MESSAGE]}
           (lit "A") (lit " B") 18 19).
  - reflexivity.
  - reflexivity.
  - vm_compute. discriminate.
  - vm_compute. discriminate.
  - vm_compute. discriminate.
  - vm_compute. discriminate.
Defined.

(** X13. A written message survives a reload of the module: whatever the
    medium does to the initialization that runs again over the file, the
    table is the one the POST left, and if that initialization is
    fulfilled a GET reads the written value as SQLite keeps it. *)
Theorem reload_keeps_written_message
    (p : Process) (t : gmap Z jsstring) (s : jsstring) (bytes : Z)
    (f : InitFaults) :
  dbInitializationPromise p = Resolved ->
  medium (world p) = Some t ->
  trim s <> [] ->
  bytes <= JSON_LIMIT ->
  let post := POST_api_message bytes [(lit "newMessage", JString s)] in
  let p' := load f (world (snd (serve p post None))) in
  medium (world p') = Some (<[1 := toWellFormed (trim s)]> t)
  /\ (dbInitializationPromise p' = Resolved ->
      fst (serve p' GET_api_message None)
      = Json {| status := 200;
                json := [(lit "message", JString (toWellFormed (trim s)))] |}).
Proof.
  intros Hi Hm Hs Hb post p'. unfold p', post.
  rewrite (serve_admitted p _ None _ (admitted_POST_api_message bytes _ Hb)).
  rewrite (invoke_post p t _ s None Hi Hm (get_newMessage _) Hs). cbn [snd world].
  set (w1 := {| medium := Some (<[1 := toWellFormed (trim s)]> t);
                issued := issued (world p) ++ [Run (InsertOrReplace 1 (trim s))] |}).
  assert (Hkeep : medium (world (load f w1))
                  = Some (<[1 := toWellFormed (trim s)]> t)).
  { pose proof (initializeDb_medium f w1) as H. unfold load.
    destruct (initializeDb f w1) as [i w']. simpl in *.
    destruct H as [H | [[H _] | [H _]]].
    - exact H.
    - discriminate H.
    - unfold rows in H. simpl in H.
      apply (f_equal (fun m : gmap Z jsstring => m !! 1)) in H.
      rewrite lookup_insert_eq, lookup_empty in H. discriminate. }
  split; [exact Hkeep|].
  intros Hi'. rewrite (serve_admitted _ _ None _ admitted_GET_api_message).
  rewrite (invoke_get _ _ [] Hi' Hkeep), lookup_insert_eq. reflexivity.
Qed.

Lemma reload_keeps_written_message_witness :
  let post := POST_api_message 25 [(lit "newMessage", JString (lit "Hi there"))] in
  let p' := load no_faults
              (world (snd (serve (load no_faults fresh) post None))) in
  medium (world p')
  = Some (<[1 := toWellFormed (trim (lit "Hi there"))]> {[1 := DEFAULT_MESSAGE]})
  /\ (dbInitializationPromise p' = Resolved ->
      fst (serve p' GET_api_message None)
      = Json {| status := 200;
                json := [(lit "message",
                          JString (toWellFormed (trim (lit "Hi there"))))] |}).
Proof.
  apply (reload_keeps_written_message (load no_faults fresh)
           {[1 := DEFAULT_MESSAGE]} (lit "Hi there") 25 no_faults).
  - reflexivity.
  - reflexivity.
  - vm_compute. discriminate.
  - vm_compute. discriminate.
Defined.

(** ** The requests of the page *)

Lemma MESSAGE_ENDPOINT_no_route : route_matches MESSAGE_ENDPOINT = false.
Proof. vm_compute. reflexivity. Qed.

(** X19. The GET the page sends never reaches the GET route: its path,
    [MESSAGE_ENDPOINT], is not the path of the route, so whatever the
    table holds Express answers with its 404 page (or the handler has
    rethrown the initialization error) and no statement is issued; the
    page, which cannot read that answer as JSON, ends with "Failed to
    load message: " followed by the parse error in the error panel and
    keeps the message it had. *)
Theorem page_fetch_is_not_routed
    (E : Engine) (p : Process) (f : Fault) (syntax_error : jsstring)
    (st : AppState) :
  serve p fetch_event f
  = (match dbInitializationPromise p with
     | Rejected message => Unhandled message
     | Resolved => Page 404
     end, p)
  /\ fetchMessage E (deliver_page 404 syntax_error) st
     = {| message := message st; loading := false;
          error := Some (lit "Failed to load message: " ++ syntax_error);
          isUpdating := isUpdating st |}
  /\ App_panel (fetchMessage E (deliver_page 404 syntax_error) st)
     = ErrorPanel (lit "Failed to load message: " ++ syntax_error).
Proof.
  split; [|split].
  - rewrite serve_not_admitted; [reflexivity|].
    unfold admitted, fetch_event. cbn [payload path express_json].
    rewrite MESSAGE_ENDPOINT_no_route. reflexivity.
  - reflexivity.
  - unfold fetchMessage, deliver_page, ok, setLoading, setError, App_panel.
    cbn [resp_status resp_json loading error message isUpdating negb andb
         Z.leb Z.compare Pos.compare Pos.compare_cont].
    rewrite (proj2 (truthy_string _) (prefixed_nonempty _ _ syntax_error)).
    reflexivity.
Qed.

(** X15. The POST the page sends never reaches the POST route either:
    Express answers with its 413 page when the body
    [JSON.stringify({ newMessage })] is over the parser's limit and with
    its 404 page otherwise (or the handler has rethrown the
    initialization error); the table is not touched, and the page ends
    with "Failed to update message: " followed by the parse error,
    keeping the message it had. *)
Theorem page_update_is_not_routed
    (E : Engine) (p : Process) (m : jsstring) (f : Fault)
    (syntax_error : jsstring) (st : AppState) :
  let code := if JSON_LIMIT <? 17 + json_string_bytes m then 413 else 404 in
  serve p (update_event m) f
  = (match dbInitializationPromise p with
     | Rejected message => Unhandled message
     | Resolved => Page code
     end, p)
  /\ handleUpdateMessage E (deliver_page code syntax_error) st
     = {| message := message st; loading := loading st;
          error := Some (lit "Failed to update message: " ++ syntax_error);
          isUpdating := false |}.
Proof.
  intros code. split.
  - rewrite serve_not_admitted.
    + unfold code, update_event, express_json. cbn [payload].
      destruct (JSON_LIMIT <? 17 + json_string_bytes m); reflexivity.
    + unfold admitted, update_event, express_json. cbn [payload path].
      destruct (JSON_LIMIT <? 17 + json_string_bytes m); [reflexivity|].
      rewrite MESSAGE_ENDPOINT_no_route. reflexivity.
  - unfold code. destruct (JSON_LIMIT <? 17 + json_string_bytes m); reflexivity.
Qed.
